(** * Vivino vision sidecar: a shallow embedding of [priv/vision_detector.py]

    The development follows the Python class [VisionDetector]: the motion
    scorer ([compute_motion]), the frame pipeline ([process_frame]), the
    command listener ([listen_stdin]) and the supervisor loop ([run]).

    Numbers.  Python floats are read as exact rationals ([Q]); [round] is
    round-half-to-even at a decimal position, [int] on a float truncates
    towards zero.  Python integers are [Z].

    Effects.  The object's attributes form the record [VisionDetector]; a
    method is a function from that record to an outcome (a value or a raised
    exception) together with the record as the method left it.  Everything the
    process does to the outside (lines written to stdout, the capture handle,
    sleeping) is recorded in a trace of [effect]s.

    Collaborators.  OpenCV's colour conversion and blur, the detection
    engine, and the builtins [float(str)] and [int(str)] are not part of the
    program; they are the fields of the class [External]. *)

From Stdlib Require Import ZArith QArith Qround Qabs Lia Lqa.
From Stdlib Require Import List Bool String Ascii.
From Stdlib Require Strings.Byte.
Import ListNotations.

Local Open Scope Z_scope.

(** ** Python builtins used by the program *)

Module Py.

(** Exceptions the program can meet. *)
Inductive exn : Type :=
| ValueError
| KeyError
| ZeroDivisionError
| KeyboardInterrupt
| cv2_error
| engine_error.

(** A call either returns or raises. *)
Inductive result (A : Type) : Type :=
| Ok (a : A)
| Raise (e : exn).
Arguments Ok {A} a.
Arguments Raise {A} e.

(** [x > y] on floats. *)
Definition Qgtb (x y : Q) : bool := negb (Qle_bool x y).

(** [x / y] on floats: division by zero raises. *)
Definition truediv (x y : Q) : result Q :=
  if Qeq_bool y 0 then Raise ZeroDivisionError else Ok (x / y)%Q.

(** [int(x)] on a float: truncation towards zero. *)
Definition int_trunc (x : Q) : Z := Z.quot (Qnum x) (Zpos (Qden x)).

(** Nearest integer, ties to the even one. *)
Definition round_half_even (x : Q) : Z :=
  let f := Qfloor x in
  match (x - inject_Z f ?= 1 # 2)%Q with
  | Lt => f
  | Gt => f + 1
  | Eq => if Z.even f then f else f + 1
  end.

Fixpoint pow10 (n : nat) : positive :=
  match n with
  | O => 1%positive
  | S n' => (10 * pow10 n')%positive
  end.

(** [round(x, ndigits)]. *)
Definition round (x : Q) (ndigits : nat) : Q :=
  round_half_even (x * inject_Z (Zpos (pow10 ndigits))) # pow10 ndigits.

(** Code points that [str.isspace] accepts, below 256. *)
Definition isspace (c : ascii) : bool :=
  let n := nat_of_ascii c in
  ((9 <=? n) && (n <=? 13) || (28 <=? n) && (n <=? 32)
   || (n =? 133) || (n =? 160))%nat.

Fixpoint lstrip (s : string) : string :=
  match s with
  | EmptyString => EmptyString
  | String c s' => if isspace c then lstrip s' else s
  end.

Fixpoint rstrip (s : string) : string :=
  match s with
  | EmptyString => EmptyString
  | String c s' =>
      match rstrip s' with
      | EmptyString => if isspace c then EmptyString else String c EmptyString
      | r => String c r
      end
  end.

(** [s.strip()]. *)
Definition strip (s : string) : string := rstrip (lstrip s).

(** [s.startswith(p)]. *)
Definition startswith (s p : string) : bool := String.prefix p s.

(** [s[n:]]. *)
Fixpoint slice_from (n : nat) (s : string) : string :=
  match n, s with
  | O, _ => s
  | S n', EmptyString => EmptyString
  | S n', String _ s' => slice_from n' s'
  end.

(** [s.split(sep)] for a one-character separator; the result is never
    empty. *)
Fixpoint split (sep : ascii) (s : string) : list string :=
  match s with
  | EmptyString => [EmptyString]
  | String c s' =>
      if Ascii.eqb c sep then EmptyString :: split sep s'
      else match split sep s' with
           | [] => [String c EmptyString]
           | w :: ws => String c w :: ws
           end
  end.

End Py.
Import Py.

(** ** Data model *)

(** One box of the engine's result: [box.cls[0]], [box.conf[0]] and
    [box.xyxy[0].tolist()]. *)
Record Box : Type := {
  b_cls : Q;
  b_conf : Q;
  b_xyxy : Q * Q * Q * Q
}.

(** [results[0]]: the boxes in engine order and the dict [names]. *)
Record Results : Type := {
  boxes : list Box;
  names : list (Z * string)
}.

(** A single-channel 8-bit image: its shape and its pixels by flat index. *)
Record GrayImage : Type := {
  rows : nat;
  cols : nat;
  px : nat -> Byte.byte
}.

(** What the program calls but does not define. *)
Class External : Type := {
  (** a decoded BGR frame *)
  Frame : Type;
  (** [frame.shape[:2]] *)
  shape : Frame -> nat * nat;
  (** pixel [i] of [GaussianBlur(cvtColor(frame, BGR2GRAY), (21, 21), 0)] *)
  smoothed : Frame -> nat -> Byte.byte;
  (** [model.predict(frame, conf=, imgsz=, classes=, ...)] *)
  predict : Frame -> Q -> Z -> option (list Z) -> result Results;
  (** [float(s)] on a string; [None] is [ValueError] *)
  float_of_str : string -> option Q;
  (** [int(s)] on a string; [None] is [ValueError] *)
  int_of_str : string -> option Z
}.

(** The attributes of a [VisionDetector] object. *)
Record VisionDetector : Type := {
  rtsp_url : string;
  conf : Q;
  imgsz : Z;
  target_classes : option (list Z);
  running : bool;
  frame_count : Z;
  prev_gray : option GrayImage;
  fps_ema : Q
}.

Definition set_conf (v : Q) (self : VisionDetector) : VisionDetector :=
  {| rtsp_url := rtsp_url self; conf := v; imgsz := imgsz self;
     target_classes := target_classes self; running := running self;
     frame_count := frame_count self; prev_gray := prev_gray self;
     fps_ema := fps_ema self |}.

Definition set_target_classes (v : option (list Z)) (self : VisionDetector)
  : VisionDetector :=
  {| rtsp_url := rtsp_url self; conf := conf self; imgsz := imgsz self;
     target_classes := v; running := running self;
     frame_count := frame_count self; prev_gray := prev_gray self;
     fps_ema := fps_ema self |}.

Definition set_running (v : bool) (self : VisionDetector) : VisionDetector :=
  {| rtsp_url := rtsp_url self; conf := conf self; imgsz := imgsz self;
     target_classes := target_classes self; running := v;
     frame_count := frame_count self; prev_gray := prev_gray self;
     fps_ema := fps_ema self |}.

Definition set_frame_count (v : Z) (self : VisionDetector) : VisionDetector :=
  {| rtsp_url := rtsp_url self; conf := conf self; imgsz := imgsz self;
     target_classes := target_classes self; running := running self;
     frame_count := v; prev_gray := prev_gray self;
     fps_ema := fps_ema self |}.

Definition set_prev_gray (v : option GrayImage) (self : VisionDetector)
  : VisionDetector :=
  {| rtsp_url := rtsp_url self; conf := conf self; imgsz := imgsz self;
     target_classes := target_classes self; running := running self;
     frame_count := frame_count self; prev_gray := v;
     fps_ema := fps_ema self |}.

Definition set_fps_ema (v : Q) (self : VisionDetector) : VisionDetector :=
  {| rtsp_url := rtsp_url self; conf := conf self; imgsz := imgsz self;
     target_classes := target_classes self; running := running self;
     frame_count := frame_count self; prev_gray := prev_gray self;
     fps_ema := v |}.

(** [VisionDetector.__init__], after the model is loaded and warmed up. *)
Definition init (url : string) (c : Q) (classes : option (list Z)) (size : Z)
  : VisionDetector :=
  {| rtsp_url := url; conf := c; imgsz := size; target_classes := classes;
     running := true; frame_count := 0; prev_gray := None; fps_ema := 0 |}.

(** One detection of a per-frame record. *)
Record Detection : Type := {
  d_class : string;
  d_conf : Q;
  d_bbox : list Z;
  d_area : Z
}.

(** The dict [process_frame] returns. *)
Record FrameEvent : Type := {
  ts : Z;
  fps : Q;
  detections : list Detection;
  motion : Q;
  frame : Z;
  inference_ms : Q
}.

(** ** Methods as state transformers that may raise *)

Definition M (A : Type) : Type := VisionDetector -> result A * VisionDetector.

Definition ret {A} (a : A) : M A := fun self => (Ok a, self).

Definition bind {A B} (m : M A) (k : A -> M B) : M B :=
  fun self =>
    match m self with
    | (Ok a, self') => k a self'
    | (Raise e, self') => (Raise e, self')
    end.

Definition lift {A} (r : result A) : M A := fun self => (r, self).

Definition get {A} (field : VisionDetector -> A) : M A :=
  fun self => (Ok (field self), self).

Definition modify (f : VisionDetector -> VisionDetector) : M unit :=
  fun self => (Ok tt, f self).

Declare Scope py_scope.
Delimit Scope py_scope with py.
Notation "x <- m ;; k" := (bind m (fun x => k))
  (at level 61, m at next level, right associativity) : py_scope.
Notation "m ;;; k" := (bind m (fun _ => k))
  (at level 61, right associativity) : py_scope.

Fixpoint mapM {A B} (f : A -> result B) (l : list A) : result (list B) :=
  match l with
  | [] => Ok []
  | a :: l' =>
      match f a with
      | Raise e => Raise e
      | Ok b => match mapM f l' with
                | Raise e => Raise e
                | Ok bs => Ok (b :: bs)
                end
      end
  end.

(** ** Motion scorer and frame pipeline *)

(** The two clock readings of one [process_frame] call:
    [time.monotonic() - t0] and [time.time()]. *)
Record Clock : Type := {
  elapsed : Q;
  wall : Q
}.

Definition intensity (b : Byte.byte) : Z := Z.of_N (Byte.to_N b).

(** [cv2.absdiff(a, b)], flattened; operands of different shapes are
    rejected. *)
Definition absdiff (a b : GrayImage) : result (list Z) :=
  if ((rows a =? rows b) && (cols a =? cols b))%nat then
    Ok (map (fun i => Z.abs (intensity (px a i) - intensity (px b i)))
            (seq 0 (rows a * cols a)))
  else Raise cv2_error.

Definition total (l : list Z) : Z := fold_right Z.add 0 l.

(** [np.mean(delta)].  NumPy answers nan for an empty array;
    [compute_motion] never passes one (see [absdiff_nonempty]). *)
Definition np_mean (delta : list Z) : Q :=
  (inject_Z (total delta) / inject_Z (Z.of_nat (List.length delta)))%Q.

(** [names[cls_id]]. *)
Fixpoint getitem (d : list (Z * string)) (k : Z) : result string :=
  match d with
  | [] => Raise KeyError
  | (k', v) :: d' => if k' =? k then Ok v else getitem d' k
  end.

(** The body of the loop over [results[0].boxes]. *)
Definition detection_of (nm : list (Z * string)) (box : Box)
  : result Detection :=
  let cls_id := int_trunc (b_cls box) in
  match getitem nm cls_id with
  | Raise e => Raise e
  | Ok cls_name =>
      let confidence := b_conf box in
      let '(x1, y1, x2, y2) := b_xyxy box in
      let bbox := [int_trunc x1; int_trunc y1; int_trunc x2; int_trunc y2] in
      let area := int_trunc ((x2 - x1) * (y2 - y1)) in
      Ok {| d_class := cls_name; d_conf := Py.round confidence 3;
            d_bbox := bbox; d_area := area |}
  end.

(** [fps = 1.0 / elapsed if elapsed > 0 else 0]. *)
Definition instantaneous_fps (el : Q) : result Q :=
  if Qgtb el 0 then truediv 1 el else Ok 0%Q.

(** [0.9 * self.fps_ema + 0.1 * fps if self.fps_ema > 0 else fps]. *)
Definition next_fps_ema (ema fps_now : Q) : Q :=
  if Qgtb ema 0 then ((9 # 10) * ema + (1 # 10) * fps_now)%Q else fps_now.

Section Pipeline.
Context `{External}.
Local Open Scope py_scope.

(** [cv2.cvtColor] followed by [cv2.GaussianBlur]: the result has the
    frame's shape; [cvtColor] rejects an empty frame. *)
Definition smoothed_gray (fr : Frame) : result GrayImage :=
  let (h, w) := shape fr in
  if (h * w =? 0)%nat then Raise cv2_error
  else Ok {| rows := h; cols := w; px := smoothed fr |}.

Definition compute_motion (fr : Frame) : M Q :=
  gray <- lift (smoothed_gray fr) ;;
  prev <- get prev_gray ;;
  match prev with
  | None =>
      modify (set_prev_gray (Some gray)) ;;;
      ret 0%Q
  | Some p =>
      delta <- lift (absdiff p gray) ;;
      modify (set_prev_gray (Some gray)) ;;;
      ret (np_mean delta / 255)%Q
  end.

Definition process_frame (fr : Frame) (clk : Clock) : M FrameEvent :=
  c <- get conf ;;
  size <- get imgsz ;;
  classes <- get target_classes ;;
  results <- lift (predict fr c size classes) ;;
  mot <- compute_motion fr ;;
  dets <- lift (mapM (detection_of (names results)) (boxes results)) ;;
  fps_now <- lift (instantaneous_fps (elapsed clk)) ;;
  ema <- get fps_ema ;;
  modify (set_fps_ema (next_fps_ema ema fps_now)) ;;;
  n <- get frame_count ;;
  modify (set_frame_count (n + 1)) ;;;
  ema' <- get fps_ema ;;
  n' <- get frame_count ;;
  ret {| ts := int_trunc (wall clk * 1000);
         fps := Py.round ema' 1;
         detections := dets;
         motion := Py.round mot 4;
         frame := n';
         inference_ms := Py.round (elapsed clk * 1000) 1 |}.

(** The record [process_frame] builds and the detector it leaves, from
    what its calls returned. *)
Definition assembled (clk : Clock) (dets : list Detection) (mot inst : Q)
    (self1 : VisionDetector) : FrameEvent * VisionDetector :=
  ({| ts := int_trunc (wall clk * 1000);
      fps := Py.round (next_fps_ema (fps_ema self1) inst) 1;
      detections := dets;
      motion := Py.round mot 4;
      frame := frame_count self1 + 1;
      inference_ms := Py.round (elapsed clk * 1000) 1 |},
   set_frame_count (frame_count self1 + 1)
     (set_fps_ema (next_fps_ema (fps_ema self1) inst) self1)).

End Pipeline.

(** ** Command listener *)

(** What one read of [sys.stdin] delivers; the end of the list is a clean
    end of input. *)
Inductive stdin_read : Type :=
| Line (s : string)
| ReadFailure.

Inductive flow : Type := Continue | Break.

Fixpoint all_some {A B} (f : A -> option B) (l : list A) : option (list B) :=
  match l with
  | [] => Some []
  | a :: l' =>
      match f a with
      | None => None
      | Some b => match all_some f l' with
                  | None => None
                  | Some bs => Some (b :: bs)
                  end
      end
  end.

Section Listener.
Context `{External}.

(** The body of [for line in sys.stdin]. *)
Definition on_line (line : string) (self : VisionDetector)
  : VisionDetector * flow :=
  let cmd := strip line in
  if String.eqb cmd "STOP" then (set_running false self, Break)
  else if startswith cmd "CONF:" then
    match float_of_str (slice_from 5 cmd) with
    | Some v => (set_conf v self, Continue)
    | None => (self, Continue)
    end
  else if startswith cmd "CLASSES:" then
    match all_some int_of_str (split "," (slice_from 8 cmd)) with
    | Some l => (set_target_classes (Some l) self, Continue)
    | None => (self, Continue)
    end
  else (self, Continue).

(** [listen_stdin] on the whole input: the detector when the method
    returns. *)
Fixpoint listen_stdin (input : list stdin_read) (self : VisionDetector)
  : VisionDetector :=
  match input with
  | [] => self
  | ReadFailure :: _ => set_running false self
  | Line l :: rest =>
      match on_line l self with
      | (self', Break) => self'
      | (self', Continue) => listen_stdin rest self'
      end
  end.

(** One turn of the listener thread: the detector and the input still to
    read, [None] once the method has returned. *)
Definition listener_turn (input : list stdin_read) (self : VisionDetector)
  : VisionDetector * option (list stdin_read) :=
  match input with
  | [] => (self, None)
  | ReadFailure :: _ => (set_running false self, None)
  | Line l :: rest =>
      match on_line l self with
      | (self', Break) => (self', None)
      | (self', Continue) => (self', Some rest)
      end
  end.

(** What makes a line one the listener passes over. *)
Definition passed_over (line : string) : Prop :=
  let cmd := strip line in
  (startswith cmd "CONF:" = true /\
   float_of_str (slice_from 5 cmd) = None) \/
  (startswith cmd "CLASSES:" = true /\
   Exists (fun tok => int_of_str tok = None)
          (split "," (slice_from 8 cmd))) \/
  (cmd <> "STOP"%string /\ startswith cmd "CONF:" = false /\
   startswith cmd "CLASSES:" = false).

End Listener.

(** ** Supervisor loop and the two threads *)

(** A JSON line on stdout. *)
Inductive output : Type :=
| frame_line (e : FrameEvent)
| frame_drop (at_frame : Z)
| cannot_open (url : string)
| stopped.

(** What the process does to its surroundings. *)
Inductive effect : Type :=
| emit (o : output)
| sleep (seconds : Z)
| cap_release
| VideoCapture (url : string)
| cap_set_buffersize (n : Z).

(** How [run] leaves the [while] loop, or the process before it. *)
Inductive ending : Type :=
| loop_done
| keyboard_interrupt
| uncaught (e : exn)
| sys_exit (code : Z).

(** The [finally] block of [run]. *)
Definition finally : list effect := [cap_release; emit stopped].

(** [except KeyboardInterrupt: pass]; anything else propagates. *)
Definition propagate (e : exn) : ending :=
  match e with
  | KeyboardInterrupt => keyboard_interrupt
  | _ => uncaught e
  end.

Section Supervisor.
Context `{External}.

(** What one pass of the loop body meets: [cap.read()] with [ret] false,
    a frame with the clock readings of its processing, or a
    [KeyboardInterrupt] delivered to the main thread. *)
Inductive capture : Type :=
| no_frame
| got_frame (fr : Frame) (clk : Clock)
| interrupted.

(** One evaluation of [while self.running: ...]: the detector, the effects,
    and how the loop ended if it did. *)
Definition iteration (c : capture) (self : VisionDetector)
  : VisionDetector * list effect * option ending :=
  if negb (running self) then (self, finally, Some loop_done)
  else
    match c with
    | interrupted => (self, finally, Some keyboard_interrupt)
    | no_frame =>
        (self,
         [emit (frame_drop (frame_count self)); sleep 1; cap_release;
          VideoCapture (rtsp_url self); cap_set_buffersize 1],
         None)
    | got_frame fr clk =>
        match process_frame fr clk self with
        | (Ok result, self') => (self', [emit (frame_line result)], None)
        | (Raise e, self') => (self', finally, Some (propagate e))
        end
    end.

(** The process: the shared object, the listener's unread input ([None]
    once [listen_stdin] has returned), how the main thread ended ([None]
    while it is in the loop), and the effects so far. *)
Record Process : Type := {
  detector : VisionDetector;
  stdin : option (list stdin_read);
  ended : option ending;
  trace : list effect
}.

(** Which thread runs next. *)
Inductive turn : Type :=
| listener
| supervisor (c : capture).

Definition step (t : turn) (p : Process) : Process :=
  match ended p with
  | Some _ => p
  | None =>
      match t with
      | listener =>
          match stdin p with
          | None => p
          | Some input =>
              let (self', rest) := listener_turn input (detector p) in
              {| detector := self'; stdin := rest; ended := None;
                 trace := trace p |}
          end
      | supervisor c =>
          let '(self', effs, e) := iteration c (detector p) in
          {| detector := self'; stdin := stdin p; ended := e;
             trace := trace p ++ effs |}
      end
  end.

Definition run_turns (sched : list turn) (p : Process) : Process :=
  fold_left (fun q t => step t q) sched p.

(** [run] up to the loop: the listener thread is started and the stream
    opened; a stream that does not open ends the process. *)
Definition launch (opened : bool) (input : list stdin_read)
    (self : VisionDetector) : Process :=
  if opened then
    {| detector := self; stdin := Some input; ended := None;
       trace := [VideoCapture (rtsp_url self); cap_set_buffersize 1] |}
  else
    {| detector := self; stdin := Some input; ended := Some (sys_exit 1);
       trace := [VideoCapture (rtsp_url self);
                 emit (cannot_open (rtsp_url self))] |}.

(** The frame numbers of the per-frame records in a trace, in order. *)
Fixpoint frame_numbers (tr : list effect) : list Z :=
  match tr with
  | [] => []
  | emit (frame_line e) :: tr' => frame e :: frame_numbers tr'
  | _ :: tr' => frame_numbers tr'
  end.

(** The [frame_drop] diagnostics of a trace, in order. *)
Fixpoint frame_drops (tr : list effect) : list Z :=
  match tr with
  | [] => []
  | emit (frame_drop n) :: tr' => n :: frame_drops tr'
  | _ :: tr' => frame_drops tr'
  end.

Definition is_stopped (e : effect) : bool :=
  match e with
  | emit stopped => true
  | _ => false
  end.

(** The effects of one failed read. *)
Definition retry (self : VisionDetector) : list effect :=
  [emit (frame_drop (frame_count self)); sleep 1; cap_release;
   VideoCapture (rtsp_url self); cap_set_buffersize 1].

(** [n] failed reads in a row. *)
Definition retries (n : nat) : list turn := repeat (supervisor no_frame) n.

(** Frame numbers emitted so far are 1, 2, ..., [frame_count]. *)
Definition numbered (p : Process) : Prop :=
  exists k : nat,
    frame_numbers (trace p) = map Z.of_nat (seq 1 k) /\
    frame_count (detector p) = Z.of_nat k.

(** No [stopped] line among the effects. *)
Definition quiet (effs : list effect) : Prop :=
  existsb is_stopped effs = false.

(** A turn that is the listener's or a failed read. *)
Definition idle (t : turn) : Prop := t = listener \/ t = supervisor no_frame.

(** A read that makes the listener clear [running]: a failure, or a line
    that is the [STOP] command. *)
Definition stops (r : stdin_read) : Prop :=
  r = ReadFailure \/ exists l, r = Line l /\ strip l = "STOP"%string.

End Supervisor.

(** ** Notions used in the statements *)

(** [v] is [x] rounded to [n] decimals: a whole number of units [10^-n],
    at most half a unit from [x]. *)
Definition rounded_to (n : nat) (x v : Q) : Prop :=
  (exists z : Z, v = z # pow10 n) /\
  (Qabs (v - x) <= 1 # (2 * pow10 n))%Q.

(** [v] has at most [n] decimals. *)
Definition has_decimals (n : nat) (v : Q) : Prop :=
  exists z : Z, (v == z # pow10 n)%Q.

(** The smoothed grey image of a frame, when [cvtColor] accepts it. *)
Definition gray_of `{External} (fr : Frame) : GrayImage :=
  {| rows := fst (shape fr); cols := snd (shape fr); px := smoothed fr |}.

Definition nonempty `{External} (fr : Frame) : Prop :=
  (fst (shape fr) * snd (shape fr))%nat <> O.

(** Mean absolute intensity difference of two images, over the pixels of
    the first, divided by the largest possible difference. *)
Definition mean_abs_difference (a b : GrayImage) : Q :=
  (np_mean (map (fun i => Z.abs (intensity (px a i) - intensity (px b i)))
                (seq 0 (rows a * cols a))) / 255)%Q.

(** What the pipeline does to one engine box: the corners truncated to
    integers, and, for a box with [x1 <= x2] and [y1 <= y2], the area the
    whole part of width times height, which is not negative. *)
Definition bbox_area_of (box : Box) (det : Detection) : Prop :=
  let '(x1, y1, x2, y2) := b_xyxy box in
  d_bbox det = [int_trunc x1; int_trunc y1; int_trunc x2; int_trunc y2] /\
  ((x1 <= x2)%Q -> (y1 <= y2)%Q ->
   0 <= d_area det /\
   (inject_Z (d_area det) <= (x2 - x1) * (y2 - y1)
    < inject_Z (d_area det) + 1)%Q).

(** ** A test double for the collaborators

    Frames are one-row images given by their already smoothed pixels; the
    engine reports one fixed person, and fails on a frame whose first pixel
    is 255; the two parsers accept plain decimal literals. *)

Module Double.

Definition digit (c : ascii) : option Z :=
  let n := nat_of_ascii c in
  if ((48 <=? n) && (n <=? 57))%nat then Some (Z.of_nat (n - 48)) else None.

Fixpoint digits (s : string) (acc : Z) : option Z :=
  match s with
  | EmptyString => Some acc
  | String c s' =>
      match digit c with
      | None => None
      | Some d => digits s' (10 * acc + d)
      end
  end.

Definition unsigned (s : string) : option Z :=
  match s with
  | EmptyString => None
  | _ => digits s 0
  end.

Definition parse_int (s : string) : option Z :=
  match strip s with
  | String "-" s' => option_map Z.opp (unsigned s')
  | String "+" s' => unsigned s'
  | s' => unsigned s'
  end.

Definition parse_float (s : string) : option Q :=
  match split "." (strip s) with
  | [i] => option_map inject_Z (unsigned i)
  | [i; f] =>
      match unsigned i, unsigned f with
      | Some a, Some b =>
          Some (inject_Z a + (b # pow10 (String.length f)))%Q
      | _, _ => None
      end
  | _ => None
  end.

Definition person : Box :=
  {| b_cls := 0; b_conf := 87654 # 100000;
     b_xyxy := (1205 # 10, 45, 3409 # 10, 3605 # 10)%Q |}.

Definition engine (fr : list Byte.byte) (c : Q) (size : Z)
    (classes : option (list Z)) : result Results :=
  match fr with
  | Byte.xff :: _ => Raise engine_error
  | _ => Ok {| boxes := [person]; names := [(0, "person"%string)] |}
  end.

#[export] Instance collaborators : External := {|
  Frame := list Byte.byte;
  shape := fun fr => (1%nat, List.length fr);
  smoothed := fun fr i => nth i fr Byte.x00;
  predict := engine;
  float_of_str := parse_float;
  int_of_str := parse_int
|}.

Definition fresh : VisionDetector :=
  init "rtsp://camera/stream" (35 # 100) None 640.

Definition tick : Clock := {| elapsed := 1 # 20; wall := 1707840000123 # 1000 |}.

Definition black : list Byte.byte := [Byte.x00; Byte.x00].
Definition dim : list Byte.byte := [Byte.x01; Byte.x01].
Definition white : list Byte.byte := [Byte.xff; Byte.xff].
Definition grey : list Byte.byte := [Byte.x80; Byte.x80].

(** The detector after a black frame went through the motion scorer. *)
Definition after_black : VisionDetector :=
  set_prev_gray (Some (gray_of black)) fresh.

(** The process at the top of the loop, [STOP] waiting on stdin. *)
Definition started : Process := launch true [Line "STOP"] fresh.

(** Two frames with a dropped read and a command in between. *)
Definition session : Process :=
  run_turns [supervisor (got_frame black tick); supervisor no_frame;
             listener; supervisor (got_frame dim tick)]
            (launch true [Line "CONF:0.5"] fresh).

(** Three frames, a dropped read, a recovered frame, then [STOP]. *)
Definition recovered : Process :=
  run_turns [supervisor (got_frame black tick);
             supervisor (got_frame dim tick);
             supervisor (got_frame grey tick);
             supervisor no_frame;
             supervisor (got_frame grey tick);
             listener;
             supervisor (got_frame grey tick)] started.

End Double.
Import Double.

(** ** Startup and the records of a run *)

(** The per-frame records of a trace, in order. *)
Fixpoint frame_events (tr : list effect) : list FrameEvent :=
  match tr with
  | [] => []
  | emit (frame_line e) :: tr' => e :: frame_events tr'
  | _ :: tr' => frame_events tr'
  end.

(** A record with a motion score between 0 and 1, a frame rate that is
    not negative and a frame number of at least 1. *)
Definition plausible (ev : FrameEvent) : Prop :=
  (0 <= motion ev <= 1)%Q /\ (0 <= fps ev)%Q /\ 1 <= frame ev.

Section Startup.
Context `{External}.

(** The class filter [main] builds from [--classes]: absent or empty
    means no filter; a token [int] rejects raises out of [main]. *)
Definition main_classes (arg : option string) : result (option (list Z)) :=
  match arg with
  | None => Ok None
  | Some EmptyString => Ok None
  | Some s =>
      match all_some int_of_str (split "," s) with
      | Some l => Ok (Some l)
      | None => Raise ValueError
      end
  end.

(** [main] after [argparse]: the detector is built from the arguments and
    [run] is entered. *)
Definition main (url : string) (c : Q) (size : Z) (classes : option string)
    (opened : bool) (input : list stdin_read) : result Process :=
  match main_classes classes with
  | Raise e => Raise e
  | Ok filter => Ok (launch opened input (init url c filter size))
  end.

End Startup.

(** ** The loop test and the loop body as separate turns

    In [run] the listener can write [running] after the main thread has
    tested it and before the pass it let in is over. *)

Section Passes.
Context `{External}.

(** The body of the [while] loop, once the test has let it in. *)
Definition loop_body (c : capture) (self : VisionDetector)
  : VisionDetector * list effect * option ending :=
  match c with
  | interrupted => (self, finally, Some keyboard_interrupt)
  | no_frame => (self, retry self, None)
  | got_frame fr clk =>
      match process_frame fr clk self with
      | (Ok result, self') => (self', [emit (frame_line result)], None)
      | (Raise e, self') => (self', finally, Some (propagate e))
      end
  end.

(** The process and where its main thread is: at the loop test, or past
    it, in the body. *)
Record Racing : Type := {
  process : Process;
  in_body : bool
}.

(** What happens next: the listener takes a turn, the main thread
    evaluates the loop test, or it runs the body it has entered. *)
Inductive move : Type :=
| listens
| tests
| passes (c : capture).

Definition advance (m : move) (r : Racing) : Racing :=
  match ended (process r) with
  | Some _ => r
  | None =>
      match m with
      | listens =>
          {| process := step listener (process r); in_body := in_body r |}
      | tests =>
          if in_body r then r
          else if negb (running (detector (process r))) then
            {| process :=
                 {| detector := detector (process r);
                    stdin := stdin (process r);
                    ended := Some loop_done;
                    trace := trace (process r) ++ finally |};
               in_body := false |}
          else {| process := process r; in_body := true |}
      | passes c =>
          if in_body r then
            let '(self', effs, e) := loop_body c (detector (process r)) in
            {| process :=
                 {| detector := self'; stdin := stdin (process r);
                    ended := e; trace := trace (process r) ++ effs |};
               in_body := false |}
          else r
      end
  end.

Definition race (ms : list move) (r : Racing) : Racing :=
  fold_left (fun q m => advance m q) ms r.

End Passes.

(** The first double's process after the loop test has passed and [STOP]
    has then been read. *)
Definition stopped_in_body : Racing :=
  race [tests; listens] {| process := started; in_body := false |}.

(** ** A second test double

    As the first, but what the engine reports depends on the first pixel of
    the frame: nothing for 0, one box of a class its [names] do not list
    for 1, the fixed person otherwise. *)

Module Scenes.

Definition stranger : Box :=
  {| b_cls := 7; b_conf := 1 # 2; b_xyxy := (0, 0, 10, 10)%Q |}.

Definition engine (fr : list Byte.byte) (c : Q) (size : Z)
    (classes : option (list Z)) : result Results :=
  match fr with
  | Byte.x00 :: _ => Ok {| boxes := []; names := [(0, "person"%string)] |}
  | Byte.x01 :: _ =>
      Ok {| boxes := [person; stranger]; names := [(0, "person"%string)] |}
  | _ => Ok {| boxes := [person]; names := [(0, "person"%string)] |}
  end.

Definition collaborators : External := {|
  Frame := list Byte.byte;
  shape := fun fr => (1%nat, List.length fr);
  smoothed := fun fr i => nth i fr Byte.x00;
  predict := engine;
  float_of_str := parse_float;
  int_of_str := parse_int
|}.

End Scenes.

(** ** The serial relay ([priv/serial_reader.py])

    Byte strings and text are both [string]: a character is a byte, and
    after [decode('ascii')] a code point below 128. *)

Module Serial.

(** [all(p(c) for c in s)]. *)
Fixpoint all_chars (p : ascii -> bool) (s : string) : bool :=
  match s with
  | EmptyString => true
  | String c s' => p c && all_chars p s'
  end.

Definition is_ascii (c : ascii) : bool := (nat_of_ascii c <? 128)%nat.

(** [32 <= ord(c) <= 126]. *)
Definition printable (c : ascii) : bool :=
  ((32 <=? nat_of_ascii c) && (nat_of_ascii c <=? 126))%nat.

(** [line.decode('ascii')]; [None] is [UnicodeDecodeError]. *)
Definition decode_ascii (line : string) : option string :=
  if all_chars is_ascii line then Some line else None.

Definition newline : string := String "010" EmptyString.

(** The body of the read loop for what [readline] returned: the text
    written to stdout, if any. *)
Definition relay_line (line : string) : option string :=
  match line with
  | EmptyString => None
  | _ =>
      match decode_ascii line with
      | None => None
      | Some decoded =>
          let text := strip decoded in
          match text with
          | EmptyString => None
          | _ => if all_chars printable text then Some (text ++ newline)%string
                 else None
          end
      end
  end.

(** What one [ser.readline()] does: returns bytes (none on a timeout),
    raises [SerialException], or is cut by a [KeyboardInterrupt]. *)
Inductive read : Type :=
| received (line : string)
| port_failure
| interrupt.

Inductive effect : Type :=
| stderr_usage
| Serial_open (device : string) (baud : Z)
| set_dtr (v : bool)
| sleep_half
| reset_input_buffer
| stdout_write (s : string)
| stderr_serial_error
| close.

(** The [while True] loop on the reads to come: the effects, and the exit
    status once an exception has ended it ([None] while it reads on). *)
Fixpoint reading (reads : list read) : list effect * option Z :=
  match reads with
  | [] => ([], None)
  | received line :: rest =>
      let (effs, status) := reading rest in
      (match relay_line line with
       | Some out => stdout_write out :: effs
       | None => effs
       end, status)
  | port_failure :: _ => ([stderr_serial_error], Some 1)
  | interrupt :: _ => ([], Some 0)
  end.

(** [main]: [argv], whether the port opens, and the reads to come.  A baud
    argument [int] rejects is an uncaught [ValueError]; the [finally] block
    closes the port when it was opened.  A [KeyboardInterrupt] is followed
    only where it cuts a [readline], not during the set-up of the port. *)
Definition main (int_of_str : string -> option Z) (argv : list string)
    (opens : bool) (reads : list read) : list effect * option Z :=
  match argv with
  | _ :: device :: baud_arg :: _ =>
      match int_of_str baud_arg with
      | None => ([], Some 1)
      | Some baud =>
          if opens then
            let (effs, status) := reading reads in
            ([Serial_open device baud; set_dtr false; sleep_half;
              reset_input_buffer]
             ++ effs
             ++ match status with
                | Some _ => [close]
                | None => []
                end,
             status)
          else ([Serial_open device baud; stderr_serial_error], Some 1)
      end
  | _ => ([stderr_usage], Some 1)
  end.

(** The lines written to stdout, in order. *)
Fixpoint stdout_lines (tr : list effect) : list string :=
  match tr with
  | [] => []
  | stdout_write s :: tr' => s :: stdout_lines tr'
  | _ :: tr' => stdout_lines tr'
  end.

(** The first character, if any, is not a blank. *)
Definition starts_clean (s : string) : bool :=
  match s with
  | EmptyString => true
  | String c _ => negb (isspace c)
  end.

(** Text the relay lets through: not empty, printable ASCII only, no blank
    at either end. *)
Definition clean (text : string) : Prop :=
  text <> EmptyString /\ all_chars printable text = true /\
  strip text = text.

End Serial.

(** Each [frame_drop] diagnostic of a trace with the number of per-frame
    records written before it, [seen] of them before the trace. *)
Fixpoint drops_in_context (seen : nat) (tr : list effect) : list (Z * nat) :=
  match tr with
  | [] => []
  | emit (frame_drop n) :: tr' => (n, seen) :: drops_in_context seen tr'
  | emit (frame_line _) :: tr' => drops_in_context (S seen) tr'
  | _ :: tr' => drops_in_context seen tr'
  end.

(** * Properties *)

(** ** Builtins *)

Lemma Qgtb_true (x y : Q) : Qgtb x y = true <-> (y < x)%Q.
Proof.
  unfold Qgtb. rewrite negb_true_iff. split; intro E.
  - apply Qnot_le_lt. intro L. apply Qle_bool_iff in L. congruence.
  - destruct (Qle_bool x y) eqn:B; [|reflexivity].
    apply Qle_bool_iff in B. exfalso. exact (Qlt_not_le _ _ E B).
Qed.

Lemma Qgtb_false (x y : Q) : Qgtb x y = false <-> (x <= y)%Q.
Proof.
  unfold Qgtb. rewrite negb_false_iff. apply Qle_bool_iff.
Qed.

Lemma round_half_even_near (x : Q) :
  (Qabs (inject_Z (round_half_even x) - x) <= 1 # 2)%Q.
Proof.
  unfold round_half_even.
  pose proof (Qfloor_le x) as Lo. pose proof (Qlt_floor x) as Hi.
  set (f := Qfloor x) in *. clearbody f.
  rewrite inject_Z_plus in Hi. change (inject_Z 1) with 1%Q in Hi.
  destruct (x - inject_Z f ?= 1 # 2)%Q eqn:C.
  - apply Qeq_alt in C.
    destruct (Z.even f); [|rewrite inject_Z_plus; change (inject_Z 1) with 1%Q];
      apply Qabs_Qle_condition; split; lra.
  - apply Qlt_alt in C.
    apply Qabs_Qle_condition; split; lra.
  - apply Qgt_alt in C. rewrite inject_Z_plus. change (inject_Z 1) with 1%Q.
    apply Qabs_Qle_condition; split; lra.
Qed.

Lemma round_rounded (x : Q) (n : nat) : rounded_to n x (Py.round x n).
Proof.
  split; [eexists; reflexivity|].
  unfold Py.round.
  pose proof (round_half_even_near (x * inject_Z (Zpos (pow10 n)))) as N.
  set (r := round_half_even _) in *. set (d := pow10 n) in *.
  clearbody r d.
  apply Qabs_Qle_condition in N. destruct N as [N1 N2].
  assert (Dpos : (0 < inject_Z (Zpos d))%Q) by reflexivity.
  assert (Ipos : (0 <= / inject_Z (Zpos d))%Q)
    by (apply Qlt_le_weak, Qinv_lt_0_compat, Dpos).
  assert (E : ((r # d) - x ==
               (inject_Z r - x * inject_Z (Zpos d)) * / inject_Z (Zpos d))%Q).
  { rewrite (Qmake_Qdiv r d). field. lra. }
  assert (Hh : (1 # (2 * d) == (1 # 2) * / inject_Z (Zpos d))%Q).
  { unfold Qeq, Qinv, Qmult. simpl. lia. }
  rewrite E, Hh.
  apply Qabs_Qle_condition. split.
  - setoid_replace (- ((1 # 2) * / inject_Z (Zpos d)))%Q
      with ((- (1 # 2)) * / inject_Z (Zpos d))%Q by ring.
    apply Qmult_le_compat_r; assumption.
  - apply Qmult_le_compat_r; assumption.
Qed.

(** ** Motion scorer *)

Section MotionFacts.
Context `{External}.

Lemma smoothed_gray_nonempty (fr : Frame) :
  nonempty fr -> smoothed_gray fr = Ok (gray_of fr).
Proof.
  unfold nonempty, smoothed_gray, gray_of. destruct (shape fr) as [h w].
  simpl. intro N. apply Nat.eqb_neq in N. rewrite N. reflexivity.
Qed.

Lemma smoothed_gray_inv (fr : Frame) (g : GrayImage) :
  smoothed_gray fr = Ok g -> g = gray_of fr /\ nonempty fr.
Proof.
  unfold nonempty, smoothed_gray, gray_of. destruct (shape fr) as [h w].
  simpl. destruct (h * w =? 0)%nat eqn:E; [discriminate|].
  intro K. inversion K. split; [reflexivity|]. now apply Nat.eqb_neq.
Qed.

Lemma absdiff_same_shape (a b : GrayImage) :
  rows a = rows b -> cols a = cols b ->
  absdiff a b =
    Ok (map (fun i => Z.abs (intensity (px a i) - intensity (px b i)))
            (seq 0 (rows a * cols a))).
Proof.
  intros R C. unfold absdiff. rewrite R, C, !Nat.eqb_refl. reflexivity.
Qed.

Lemma absdiff_inv (a b : GrayImage) (delta : list Z) :
  absdiff a b = Ok delta ->
  rows a = rows b /\ cols a = cols b /\
  delta = map (fun i => Z.abs (intensity (px a i) - intensity (px b i)))
              (seq 0 (rows a * cols a)).
Proof.
  unfold absdiff.
  destruct (rows a =? rows b)%nat eqn:R; [|discriminate].
  destruct (cols a =? cols b)%nat eqn:C; [|discriminate].
  apply Nat.eqb_eq in R, C. simpl. intro K. inversion K. auto.
Qed.

Lemma intensity_range (b : Byte.byte) : 0 <= intensity b <= 255.
Proof.
  unfold intensity. pose proof (Byte.to_N_bounded b). lia.
Qed.

Lemma total_bounds (f : nat -> Z) (l : list nat) :
  (forall i, 0 <= f i <= 255) ->
  0 <= total (map f l) <= 255 * Z.of_nat (List.length (map f l)).
Proof.
  intro B. induction l as [|i l IH]; simpl total; simpl List.length.
  - lia.
  - specialize (B i). lia.
Qed.

(** The array handed to [np.mean] is never empty. *)
Lemma absdiff_nonempty (p : GrayImage) (fr : Frame) (g : GrayImage)
      (delta : list Z) :
  smoothed_gray fr = Ok g -> absdiff p g = Ok delta -> delta <> [].
Proof.
  intros G D. apply smoothed_gray_inv in G. destruct G as [-> N].
  apply absdiff_inv in D. destruct D as (R & C & ->).
  unfold nonempty in N. simpl in R, C. rewrite R, C.
  intro E. apply (f_equal (@List.length Z)) in E.
  rewrite length_map, length_seq in E. simpl in E. contradiction.
Qed.

Lemma mean_abs_difference_unit (a b : GrayImage) :
  (0 <= mean_abs_difference a b <= 1)%Q.
Proof.
  unfold mean_abs_difference, np_mean.
  set (f := fun i => Z.abs (intensity (px a i) - intensity (px b i))).
  assert (B : forall i, 0 <= f i <= 255).
  { intro i. unfold f.
    pose proof (intensity_range (px a i)).
    pose proof (intensity_range (px b i)). lia. }
  pose proof (total_bounds f (seq 0 (rows a * cols a)) B) as T.
  set (l := map f _) in *. clearbody l.
  set (n := Z.of_nat (List.length l)) in *.
  assert (Nn : 0 <= n) by (subst n; lia).
  destruct (Z.eq_dec n 0) as [Z0|Z0].
  - rewrite Z0. unfold Qdiv. change (/ inject_Z 0)%Q with 0%Q.
    rewrite Qmult_0_r, Qmult_0_l. split; unfold Qle; simpl; lia.
  - assert (Np : (0 < inject_Z n)%Q).
    { change 0%Q with (inject_Z 0). rewrite <- Zlt_Qlt. lia. }
    assert (T1 : (0 <= inject_Z (total l))%Q).
    { change 0%Q with (inject_Z 0). rewrite <- Zle_Qle. lia. }
    assert (T2 : (inject_Z (total l) <= 255 * inject_Z n)%Q).
    { change 255%Q with (inject_Z 255). rewrite <- inject_Z_mult.
      rewrite <- Zle_Qle. lia. }
    split.
    + apply Qle_shift_div_l; [reflexivity|]. rewrite Qmult_0_l.
      apply Qle_shift_div_l; [exact Np|]. rewrite Qmult_0_l. exact T1.
    + apply Qle_shift_div_r; [reflexivity|]. rewrite Qmult_1_l.
      apply Qle_shift_div_r; [exact Np|]. exact T2.
Qed.

Lemma compute_motion_first (fr : Frame) (self : VisionDetector) :
  prev_gray self = None -> nonempty fr ->
  compute_motion fr self = (Ok 0%Q, set_prev_gray (Some (gray_of fr)) self).
Proof.
  intros P N. unfold compute_motion, bind, lift, get, modify, ret.
  rewrite (smoothed_gray_nonempty fr N), P. reflexivity.
Qed.

Lemma compute_motion_next (fr : Frame) (self : VisionDetector)
      (p : GrayImage) :
  prev_gray self = Some p -> nonempty fr ->
  rows p = fst (shape fr) -> cols p = snd (shape fr) ->
  compute_motion fr self =
    (Ok (mean_abs_difference p (gray_of fr)),
     set_prev_gray (Some (gray_of fr)) self).
Proof.
  intros P N R C. unfold compute_motion, bind, lift, get, modify, ret.
  rewrite (smoothed_gray_nonempty fr N), P.
  rewrite absdiff_same_shape by assumption. reflexivity.
Qed.

Lemma compute_motion_inv (fr : Frame) (self self' : VisionDetector) (v : Q) :
  compute_motion fr self = (Ok v, self') ->
  nonempty fr /\ self' = set_prev_gray (Some (gray_of fr)) self /\
  (prev_gray self = None /\ v = 0%Q \/
   exists p, prev_gray self = Some p /\
             rows p = fst (shape fr) /\ cols p = snd (shape fr) /\
             v = mean_abs_difference p (gray_of fr)).
Proof.
  unfold compute_motion, bind, lift, get, modify, ret.
  destruct (smoothed_gray fr) as [g|e] eqn:G; [|discriminate].
  apply smoothed_gray_inv in G. destruct G as [-> N].
  destruct (prev_gray self) as [p|] eqn:P.
  - destruct (absdiff p (gray_of fr)) as [delta|e] eqn:D; [|discriminate].
    apply absdiff_inv in D. destruct D as (R & C & ->).
    intro K. inversion K. repeat split; auto.
    right. exists p. repeat split; auto.
  - intro K. inversion K. repeat split; auto.
Qed.

Lemma compute_motion_raise (fr : Frame) (self self' : VisionDetector)
      (e : exn) :
  compute_motion fr self = (Raise e, self') -> self' = self.
Proof.
  unfold compute_motion, bind, lift, get, modify, ret.
  destruct (smoothed_gray fr) as [g|e1]; [|intro K; now inversion K].
  destruct (prev_gray self) as [p|]; [|discriminate].
  destruct (absdiff p g) as [delta|e2]; [discriminate|].
  intro K. now inversion K.
Qed.

End MotionFacts.

(** C5.  The motion scorer: the first invocation (no stored image) stores
    the frame's smoothed grey image and returns exactly 0; every invocation
    that returns has replaced the stored image by the current frame's and its
    score lies between 0 and 1; and the invocation after one on frame [f]
    returns, for a frame [g] of the same shape, the mean absolute intensity
    difference between [f] and [g] divided by 255. *)
Theorem motion_scorer_contract `{External} :
  (forall (fr : Frame) (self : VisionDetector),
      prev_gray self = None -> nonempty fr ->
      compute_motion fr self
      = (Ok 0%Q, set_prev_gray (Some (gray_of fr)) self)) /\
  (forall (fr : Frame) (self self' : VisionDetector) (v : Q),
      compute_motion fr self = (Ok v, self') ->
      self' = set_prev_gray (Some (gray_of fr)) self /\ (0 <= v <= 1)%Q) /\
  (forall (f g : Frame) (self self1 : VisionDetector) (v : Q),
      compute_motion f self = (Ok v, self1) -> shape g = shape f ->
      compute_motion g self1
      = (Ok (mean_abs_difference (gray_of f) (gray_of g)),
         set_prev_gray (Some (gray_of g)) self1)).
Proof.
  split; [|split].
  - intros fr self P N. now apply compute_motion_first.
  - intros fr self self' v E.
    apply compute_motion_inv in E. destruct E as (_ & -> & [[_ ->]|R]).
    + split; [reflexivity|]. split; unfold Qle; simpl; lia.
    + destruct R as (p & _ & _ & _ & ->).
      split; [reflexivity|]. apply mean_abs_difference_unit.
  - intros f g self self1 v E S.
    apply compute_motion_inv in E. destruct E as (N & -> & _).
    apply (compute_motion_next g _ (gray_of f)).
    + reflexivity.
    + unfold nonempty in *. rewrite S. exact N.
    + simpl. now rewrite S.
    + simpl. now rewrite S.
Qed.

Lemma motion_scorer_contract_witness :
  compute_motion black fresh
  = (Ok 0%Q, set_prev_gray (Some (gray_of black)) fresh) /\
  (0 <= 0 <= 1)%Q /\
  compute_motion white (set_prev_gray (Some (gray_of black)) fresh)
  = (Ok (mean_abs_difference (gray_of black) (gray_of white)),
     set_prev_gray (Some (gray_of white))
       (set_prev_gray (Some (gray_of black)) fresh)).
Proof.
  destruct (@motion_scorer_contract collaborators) as (First & Any & Next).
  assert (E : compute_motion black fresh
              = (Ok 0%Q, set_prev_gray (Some (gray_of black)) fresh)).
  { apply First; [reflexivity | vm_compute; discriminate]. }
  split; [exact E|]. split.
  - exact (proj2 (Any black fresh _ 0%Q E)).
  - exact (Next black white fresh _ 0%Q E eq_refl).
Defined.

Example motion_black_then_white :
  (mean_abs_difference (gray_of black) (gray_of white) == 1)%Q /\
  (mean_abs_difference (gray_of black) (gray_of black) == 0)%Q.
Proof. split; vm_compute; reflexivity. Qed.

(** ** Frame pipeline *)

Section PipelineFacts.
Context `{External}.

Lemma process_frame_unfold (fr : Frame) (clk : Clock)
      (self : VisionDetector) :
  process_frame fr clk self =
  match predict fr (conf self) (imgsz self) (target_classes self) with
  | Raise e => (Raise e, self)
  | Ok results =>
      match compute_motion fr self with
      | (Raise e, self1) => (Raise e, self1)
      | (Ok mot, self1) =>
          match mapM (detection_of (names results)) (boxes results) with
          | Raise e => (Raise e, self1)
          | Ok dets =>
              match instantaneous_fps (elapsed clk) with
              | Raise e => (Raise e, self1)
              | Ok inst =>
                  (Ok (fst (assembled clk dets mot inst self1)),
                   snd (assembled clk dets mot inst self1))
              end
          end
      end
  end.
Proof.
  unfold process_frame, bind, lift, get, modify, ret.
  destruct (predict fr _ _ _) as [results|e]; [|reflexivity].
  destruct (compute_motion fr self) as [[mot|e] self1]; [|reflexivity].
  destruct (mapM _ _) as [dets|e]; [|reflexivity].
  destruct (instantaneous_fps _) as [inst|e]; reflexivity.
Qed.

Lemma instantaneous_fps_total (el : Q) :
  exists inst, instantaneous_fps el = Ok inst /\
               ((0 < el)%Q -> inst = (1 / el)%Q) /\
               ((el <= 0)%Q -> inst = 0%Q).
Proof.
  unfold instantaneous_fps, truediv.
  destruct (Qgtb el 0) eqn:G.
  - apply Qgtb_true in G.
    destruct (Qeq_bool el 0) eqn:Z0.
    + apply Qeq_bool_iff in Z0. rewrite Z0 in G.
      exfalso. exact (Qlt_irrefl _ G).
    + eexists. split; [reflexivity|]. split; [reflexivity|].
      intro L. exfalso. exact (Qlt_not_le _ _ G L).
  - apply Qgtb_false in G. eexists. split; [reflexivity|].
    split; [|reflexivity].
    intro L. exfalso. exact (Qlt_not_le _ _ L G).
Qed.

Lemma process_frame_inv (fr : Frame) (clk : Clock)
      (self self' : VisionDetector) (ev : FrameEvent) :
  process_frame fr clk self = (Ok ev, self') ->
  exists results mot dets inst self1,
    predict fr (conf self) (imgsz self) (target_classes self) = Ok results /\
    compute_motion fr self = (Ok mot, self1) /\
    mapM (detection_of (names results)) (boxes results) = Ok dets /\
    instantaneous_fps (elapsed clk) = Ok inst /\
    (ev, self') = assembled clk dets mot inst self1.
Proof.
  rewrite process_frame_unfold.
  destruct (predict fr _ _ _) as [results|e] eqn:P; [|discriminate].
  destruct (compute_motion fr self) as [[mot|e] self1] eqn:C;
    [|discriminate].
  destruct (mapM _ _) as [dets|e] eqn:D; [|discriminate].
  destruct (instantaneous_fps _) as [inst|e] eqn:I; [|discriminate].
  intro K. inversion K. exists results, mot, dets, inst, self1.
  repeat split; assumption || reflexivity.
Qed.

Lemma process_frame_returns (fr : Frame) (clk : Clock)
      (self self1 : VisionDetector) (results : Results)
      (mot : Q) (dets : list Detection) :
  predict fr (conf self) (imgsz self) (target_classes self) = Ok results ->
  compute_motion fr self = (Ok mot, self1) ->
  mapM (detection_of (names results)) (boxes results) = Ok dets ->
  exists inst,
    instantaneous_fps (elapsed clk) = Ok inst /\
    process_frame fr clk self
    = (Ok (fst (assembled clk dets mot inst self1)),
       snd (assembled clk dets mot inst self1)).
Proof.
  intros P C D. rewrite process_frame_unfold, P, C, D.
  destruct (instantaneous_fps_total (elapsed clk)) as (inst & E & _).
  exists inst. rewrite E. split; reflexivity.
Qed.

(** A call that raises has touched nothing but the stored grey image. *)
Lemma process_frame_raise (fr : Frame) (clk : Clock)
      (self self' : VisionDetector) (e : exn) :
  process_frame fr clk self = (Raise e, self') ->
  frame_count self' = frame_count self /\ running self' = running self /\
  fps_ema self' = fps_ema self.
Proof.
  rewrite process_frame_unfold.
  destruct (predict fr _ _ _) as [results|e1];
    [|intro K; now inversion K].
  destruct (compute_motion fr self) as [[mot|e2] self1] eqn:C.
  - apply compute_motion_inv in C. destruct C as (_ & -> & _).
    destruct (mapM _ _) as [dets|e3].
    + destruct (instantaneous_fps_total (elapsed clk)) as (inst & E & _).
      rewrite E. discriminate.
    + intro K. inversion K. subst. auto.
  - apply compute_motion_raise in C. subst self1.
    intro K. inversion K. subst. auto.
Qed.

End PipelineFacts.

Lemma int_trunc_nonneg (x : Q) : (0 <= x)%Q -> int_trunc x = Qfloor x.
Proof.
  destruct x as [n d]. unfold Qle, int_trunc, Qfloor. simpl.
  intro N. apply Z.quot_div_nonneg; lia.
Qed.

(** [int] on a float drops the fraction: the result is between zero and
    the float, less than one away from it. *)
Lemma int_trunc_near (x : Q) :
  (Qabs (inject_Z (int_trunc x)) <= Qabs x)%Q /\
  (Qabs (x - inject_Z (int_trunc x)) < 1)%Q.
Proof.
  destruct (Qlt_le_dec x 0) as [Neg|Pos].
  - assert (E : int_trunc x = - Qfloor (- x)).
    { rewrite <- int_trunc_nonneg by lra.
      destruct x as [n d]. unfold int_trunc. simpl.
      rewrite Z.quot_opp_l by lia. lia. }
    rewrite E, inject_Z_opp.
    pose proof (Qfloor_le (- x)) as Lo. pose proof (Qlt_floor (- x)) as Hi.
    rewrite inject_Z_plus in Hi. change (inject_Z 1) with 1%Q in Hi.
    assert (F0 : (0 <= inject_Z (Qfloor (- x)))%Q).
    { change 0%Q with (inject_Z 0). rewrite <- Zle_Qle.
      change 0 with (Qfloor 0). apply Qfloor_resp_le. lra. }
    split.
    + rewrite Qabs_opp, (Qabs_pos _ F0), (Qabs_neg x) by lra. exact Lo.
    + apply Qabs_Qlt_condition. split; lra.
  - rewrite (int_trunc_nonneg x Pos).
    pose proof (Qfloor_le x) as Lo. pose proof (Qlt_floor x) as Hi.
    rewrite inject_Z_plus in Hi. change (inject_Z 1) with 1%Q in Hi.
    assert (F0 : (0 <= inject_Z (Qfloor x))%Q).
    { change 0%Q with (inject_Z 0). rewrite <- Zle_Qle.
      change 0 with (Qfloor 0). apply Qfloor_resp_le. exact Pos. }
    split.
    + rewrite (Qabs_pos _ F0), (Qabs_pos x Pos). exact Lo.
    + apply Qabs_Qlt_condition. split; lra.
Qed.

Lemma mapM_Forall2 {A B} (f : A -> result B) (l : list A) (l' : list B) :
  mapM f l = Ok l' -> Forall2 (fun a b => f a = Ok b) l l'.
Proof.
  revert l'. induction l as [|a l IH]; simpl; intros l' E.
  - inversion E. constructor.
  - destruct (f a) as [b|e] eqn:Fa; [|discriminate].
    destruct (mapM f l) as [bs|e]; [|discriminate].
    inversion E. constructor; auto.
Qed.

Lemma detection_of_inv (nm : list (Z * string)) (box : Box)
      (det : Detection) :
  detection_of nm box = Ok det ->
  getitem nm (int_trunc (b_cls box)) = Ok (d_class det) /\
  d_conf det = Py.round (b_conf box) 3 /\
  bbox_area_of box det.
Proof.
  unfold detection_of, bbox_area_of.
  destruct (getitem nm _) as [cls_name|e]; [|discriminate].
  destruct (b_xyxy box) as [[[x1 y1] x2] y2].
  intro K. inversion K. simpl.
  repeat split; try reflexivity.
  - rewrite int_trunc_nonneg; [|nra].
    change 0 with (Qfloor 0). apply Qfloor_resp_le. nra.
  - rewrite int_trunc_nonneg by nra. apply Qfloor_le.
  - rewrite int_trunc_nonneg by nra.
    pose proof (Qlt_floor ((x2 - x1) * (y2 - y1))) as Hi.
    rewrite inject_Z_plus in Hi. exact Hi.
Qed.

(** C9.  Every box of the engine's result is passed on, in order, with its
    corners truncated to integers and, when [x1 <= x2] and [y1 <= y2], with
    an area that is the whole part of width times height and is not
    negative. *)
Theorem detections_bbox_and_area `{External} (fr : Frame) (clk : Clock)
    (self self' : VisionDetector) (ev : FrameEvent) (results : Results) :
  process_frame fr clk self = (Ok ev, self') ->
  predict fr (conf self) (imgsz self) (target_classes self) = Ok results ->
  Forall2 bbox_area_of (boxes results) (detections ev).
Proof.
  intros E P. apply process_frame_inv in E.
  destruct E as (results' & mot & dets & inst & self1 & P' & _ & D & _ & A).
  rewrite P in P'. inversion P'. subst results'.
  inversion A. simpl.
  apply mapM_Forall2 in D.
  eapply Forall2_impl; [|exact D].
  intros box det Ok1. now apply detection_of_inv in Ok1.
Qed.

Lemma detections_bbox_and_area_witness :
  exists ev self',
    process_frame black tick fresh = (Ok ev, self') /\
    Forall2 bbox_area_of [person] (detections ev) /\
    map d_bbox (detections ev) = [[120; 45; 340; 360]] /\
    map d_area (detections ev) = [69536].
Proof.
  eexists. eexists. split; [vm_compute; reflexivity|]. split.
  - exact (detections_bbox_and_area (H := collaborators) black tick fresh _ _
             {| boxes := [person]; names := [(0, "person"%string)] |}
             eq_refl eq_refl).
  - split; reflexivity.
Defined.

(** C2 (as the code has it).  In every per-frame record each detection's
    confidence is the engine's rounded to 3 decimals, the motion score is
    the scorer's rounded to 4 decimals, and the frame rate and the inference
    time in milliseconds are rounded to 1 decimal. *)
Theorem frame_record_precision `{External} (fr : Frame) (clk : Clock)
    (self self' : VisionDetector) (ev : FrameEvent) :
  process_frame fr clk self = (Ok ev, self') ->
  exists (results : Results) (mot : Q) (self1 : VisionDetector),
    predict fr (conf self) (imgsz self) (target_classes self) = Ok results /\
    compute_motion fr self = (Ok mot, self1) /\
    Forall2 (fun box det => rounded_to 3 (b_conf box) (d_conf det))
            (boxes results) (detections ev) /\
    rounded_to 4 mot (motion ev) /\
    rounded_to 1 (fps_ema self') (fps ev) /\
    rounded_to 1 (elapsed clk * 1000) (inference_ms ev).
Proof.
  intro E. apply process_frame_inv in E.
  destruct E as (results & mot & dets & inst & self1 & P & C & D & _ & A).
  exists results, mot, self1. inversion A. simpl.
  repeat split; try assumption; try apply round_rounded.
  apply mapM_Forall2 in D.
  eapply Forall2_impl; [|exact D].
  intros box det Ok1. apply detection_of_inv in Ok1.
  destruct Ok1 as (_ & -> & _). apply round_rounded.
Qed.

Lemma frame_record_precision_witness :
  exists ev self',
    process_frame dim tick after_black
    = (Ok ev, self') /\
    rounded_to 4 (2 # 510) (motion ev) /\
    rounded_to 1 (fps_ema self') (fps ev) /\
    rounded_to 1 ((1 # 20) * 1000) (inference_ms ev) /\
    map d_conf (detections ev) = [(877 # 1000)%Q].
Proof.
  eexists. eexists. split; [vm_compute; reflexivity|].
  destruct (frame_record_precision (H := collaborators) dim tick
              after_black _ _ eq_refl)
    as (results & mot & self1 & _ & C & _ & M & F & I).
  vm_compute in C. inversion C. subst mot.
  repeat split; try exact (proj1 M); try exact (proj2 M);
    try exact (proj1 F); try exact (proj2 F);
    try exact (proj1 I); try exact (proj2 I).
Defined.

(** The motion score of a per-frame record can carry four decimals: after
    a black frame, a frame one intensity step brighter scores 1/255, which
    is emitted as 0.0039, not as the three-decimal 0.004. *)
Lemma motion_not_three_decimals :
  exists ev self' mot self1,
    process_frame dim tick after_black = (Ok ev, self') /\
    compute_motion dim after_black = (Ok mot, self1) /\
    (mot == 1 # 255)%Q /\
    motion ev = (39 # 10000)%Q /\
    ~ rounded_to 3 mot (motion ev) /\
    ~ has_decimals 3 (motion ev).
Proof.
  eexists. eexists. eexists. eexists.
  split; [vm_compute; reflexivity|].
  split; [vm_compute; reflexivity|].
  split; [reflexivity|].
  split; [reflexivity|]. split.
  - intros [[z Ez] _]. simpl in Ez. inversion Ez.
  - intros [z Ez]. unfold Qeq in Ez. simpl in Ez. lia.
Qed.

(** C3 (as the code has it).  The instantaneous rate is always defined:
    [1/elapsed] for a positive elapsed time and 0 otherwise.  A processed
    frame leaves as the estimate 0.9 times the previous one plus 0.1 times
    the instantaneous rate when the previous estimate is positive, and the
    instantaneous rate itself when it is not; the estimate of a new detector
    is 0, so the first sample seeds it. *)
Theorem rate_estimator_update `{External} :
  (forall el : Q,
      exists inst, instantaneous_fps el = Ok inst /\
                   ((0 < el)%Q -> inst = (1 / el)%Q) /\
                   ((el <= 0)%Q -> inst = 0%Q)) /\
  (forall (fr : Frame) (clk : Clock) (self self' : VisionDetector)
          (ev : FrameEvent),
      process_frame fr clk self = (Ok ev, self') ->
      exists inst,
        instantaneous_fps (elapsed clk) = Ok inst /\
        ((0 < fps_ema self)%Q ->
         fps_ema self' = ((9 # 10) * fps_ema self + (1 # 10) * inst)%Q) /\
        ((fps_ema self <= 0)%Q -> fps_ema self' = inst)) /\
  (forall (url : string) (c : Q) (classes : option (list Z)) (size : Z)
          (fr : Frame) (clk : Clock) (self' : VisionDetector)
          (ev : FrameEvent),
      process_frame fr clk (init url c classes size) = (Ok ev, self') ->
      instantaneous_fps (elapsed clk) = Ok (fps_ema self')).
Proof.
  assert (Step : forall fr clk self self' ev,
             process_frame fr clk self = (Ok ev, self') ->
             exists inst,
               instantaneous_fps (elapsed clk) = Ok inst /\
               fps_ema self' = next_fps_ema (fps_ema self) inst).
  { intros fr clk self self' ev E. apply process_frame_inv in E.
    destruct E as (results & mot & dets & inst & self1 & _ & C & _ & I & A).
    apply compute_motion_inv in C. destruct C as (_ & -> & _).
    exists inst. inversion A. split; [exact I|reflexivity]. }
  split; [exact instantaneous_fps_total|]. split.
  - intros fr clk self self' ev E.
    destruct (Step _ _ _ _ _ E) as (inst & I & ->).
    exists inst. split; [exact I|]. unfold next_fps_ema. split; intro G.
    + apply Qgtb_true in G. now rewrite G.
    + apply Qgtb_false in G. now rewrite G.
  - intros url c classes size fr clk self' ev E.
    destruct (Step _ _ _ _ _ E) as (inst & I & ->). exact I.
Qed.

Lemma rate_estimator_update_witness :
  exists ev1 s1 ev2 s2,
    process_frame black tick fresh = (Ok ev1, s1) /\
    process_frame black tick s1 = (Ok ev2, s2) /\
    instantaneous_fps (elapsed tick) = Ok (fps_ema s1) /\
    fps_ema s2 = ((9 # 10) * fps_ema s1 + (1 # 10) * (1 / elapsed tick))%Q.
Proof.
  destruct (@rate_estimator_update collaborators) as (Inst & Later & First).
  eexists. eexists. eexists. eexists.
  split; [vm_compute; reflexivity|].
  split; [vm_compute; reflexivity|].
  split.
  - exact (First _ _ _ _ black tick _ _ eq_refl).
  - match goal with
    | |- fps_ema _ = (_ * fps_ema ?s1 + _)%Q =>
        destruct (Later black tick s1 _ _ eq_refl) as (inst & I & Pos & _)
    end.
    destruct (Inst (elapsed tick)) as (inst' & I' & V & _).
    rewrite I in I'. inversion I'. subst inst'.
    rewrite <- (V eq_refl). apply Pos. reflexivity.
Defined.

(** Two samples, the first with no measurable elapsed time: the estimate
    after the first is 0, and the second sample (rate 2) seeds the estimate
    again instead of being blended into it. *)
Lemma blend_skipped_after_zero_estimate :
  exists ev1 s1 ev2 s2,
    process_frame black {| elapsed := 0; wall := 0 |} fresh = (Ok ev1, s1) /\
    process_frame black {| elapsed := 1 # 2; wall := 0 |} s1 = (Ok ev2, s2) /\
    instantaneous_fps (1 # 2) = Ok 2%Q /\
    (fps_ema s1 == 0)%Q /\ (fps_ema s2 == 2)%Q /\
    ~ (fps_ema s2 == (9 # 10) * fps_ema s1 + (1 # 10) * 2)%Q.
Proof.
  eexists. eexists. eexists. eexists.
  split; [vm_compute; reflexivity|].
  split; [vm_compute; reflexivity|].
  split; [vm_compute; reflexivity|].
  split; [reflexivity|]. split; [reflexivity|].
  vm_compute. discriminate.
Qed.

(** ** Command listener *)

Lemma classes_is_not_conf (s : string) :
  startswith s "CLASSES:" = true -> startswith s "CONF:" = false.
Proof.
  unfold startswith. intro P. apply String.prefix_correct in P.
  destruct s as [|a [|b s]]; try discriminate.
  simpl in P. inversion P. reflexivity.
Qed.

Lemma conf_is_not_stop (s : string) :
  startswith s "CONF:" = true -> String.eqb s "STOP" = false.
Proof.
  intro P. destruct (String.eqb s "STOP") eqn:E; [|reflexivity].
  apply String.eqb_eq in E. subst s. discriminate.
Qed.

Lemma classes_is_not_stop (s : string) :
  startswith s "CLASSES:" = true -> String.eqb s "STOP" = false.
Proof.
  intro P. destruct (String.eqb s "STOP") eqn:E; [|reflexivity].
  apply String.eqb_eq in E. subst s. discriminate.
Qed.

Lemma all_some_none {A B} (f : A -> option B) (l : list A) :
  Exists (fun a => f a = None) l -> all_some f l = None.
Proof.
  induction 1 as [a l Fa|a l _ IH]; simpl.
  - now rewrite Fa.
  - destruct (f a); [|reflexivity]. now rewrite IH.
Qed.

Section ListenerFacts.
Context `{External}.

Lemma on_line_passed_over (line : string) (self : VisionDetector) :
  passed_over line -> on_line line self = (self, Continue).
Proof.
  unfold passed_over, on_line. set (cmd := strip line). clearbody cmd.
  intros [[P V]|[[P V]|(S & P1 & P2)]].
  - now rewrite (conf_is_not_stop _ P), P, V.
  - rewrite (classes_is_not_stop _ P), (classes_is_not_conf _ P), P.
    now rewrite (all_some_none _ _ V).
  - apply String.eqb_neq in S. now rewrite S, P1, P2.
Qed.

Lemma on_line_break (line : string) (self self' : VisionDetector) :
  on_line line self = (self', Break) -> self' = set_running false self.
Proof.
  unfold on_line.
  destruct (String.eqb (strip line) "STOP"); [intro K; now inversion K|].
  destruct (startswith (strip line) "CONF:").
  { destruct (float_of_str _); discriminate. }
  destruct (startswith (strip line) "CLASSES:"); [|discriminate].
  destruct (all_some _ _); discriminate.
Qed.

(** No command sets [running] to true. *)
Lemma on_line_running (line : string) (self : VisionDetector) :
  running (fst (on_line line self)) = true -> running self = true.
Proof.
  unfold on_line.
  destruct (String.eqb (strip line) "STOP"); [discriminate|].
  destruct (startswith (strip line) "CONF:").
  { destruct (float_of_str _); simpl; auto. }
  destruct (startswith (strip line) "CLASSES:"); [|auto].
  destruct (all_some _ _); simpl; auto.
Qed.

Lemma on_line_frame_count (line : string) (self : VisionDetector) :
  frame_count (fst (on_line line self)) = frame_count self.
Proof.
  unfold on_line.
  destruct (String.eqb (strip line) "STOP"); [reflexivity|].
  destruct (startswith (strip line) "CONF:").
  { destruct (float_of_str _); reflexivity. }
  destruct (startswith (strip line) "CLASSES:"); [|reflexivity].
  destruct (all_some _ _); reflexivity.
Qed.

Lemma listen_stdin_after_failure (before rest : list stdin_read)
      (self : VisionDetector) :
  running (listen_stdin (before ++ ReadFailure :: rest) self) = false.
Proof.
  revert self. induction before as [|r before IH]; intro self; simpl.
  - reflexivity.
  - destruct r as [l|]; [|reflexivity].
    destruct (on_line l self) as [self' [|]] eqn:E.
    + apply IH.
    + apply on_line_break in E. now subst.
Qed.

Lemma listener_turn_running (input : list stdin_read)
      (self : VisionDetector) :
  running (fst (listener_turn input self)) = true -> running self = true.
Proof.
  destruct input as [|[l|] rest]; simpl; try discriminate; auto.
  pose proof (on_line_running l self) as R.
  destruct (on_line l self) as [self' [|]]; simpl in *; exact R.
Qed.

Lemma listener_turn_frame_count (input : list stdin_read)
      (self : VisionDetector) :
  frame_count (fst (listener_turn input self)) = frame_count self.
Proof.
  destruct input as [|[l|] rest]; simpl; try reflexivity.
  pose proof (on_line_frame_count l self) as R.
  destruct (on_line l self) as [self' [|]]; simpl in *; exact R.
Qed.

End ListenerFacts.

(** C4.  A line whose command is [CONF:] with a payload [float] rejects,
    or [CLASSES:] with a list in which [int] rejects some token, or is no
    known command at all, changes nothing: the detector (so the threshold
    and the class filter) is as before, nothing is raised, and the listener
    goes on with the next line. *)
Theorem malformed_line_ignored `{External} (line : string)
    (rest : list stdin_read) (self : VisionDetector) :
  passed_over line ->
  on_line line self = (self, Continue) /\
  listener_turn (Line line :: rest) self = (self, Some rest) /\
  listen_stdin (Line line :: rest) self = listen_stdin rest self.
Proof.
  intro P. pose proof (on_line_passed_over line self P) as E.
  simpl. rewrite E. auto.
Qed.

Lemma malformed_line_ignored_witness :
  (on_line "CONF:abc" fresh = (fresh, Continue) /\
   listener_turn [Line "CONF:abc"; Line "CONF:0.5"] fresh
   = (fresh, Some [Line "CONF:0.5"]) /\
   listen_stdin [Line "CONF:abc"; Line "CONF:0.5"] fresh
   = listen_stdin [Line "CONF:0.5"] fresh) /\
  on_line "CLASSES:0,x,2" fresh = (fresh, Continue) /\
  on_line "conf:0.5" fresh = (fresh, Continue).
Proof.
  split; [|split].
  - apply (malformed_line_ignored (H := collaborators)).
    left. split; reflexivity.
  - apply (malformed_line_ignored (H := collaborators) _ [] fresh).
    right. left. split; [reflexivity|].
    vm_compute. apply Exists_cons_tl, Exists_cons_hd. reflexivity.
  - apply (malformed_line_ignored (H := collaborators) _ [] fresh).
    right. right. repeat split. vm_compute. discriminate.
Defined.

Example well_formed_lines_apply :
  conf (fst (on_line "CONF:0.5" fresh)) = (0 + (5 # 10))%Q /\
  target_classes (fst (on_line "CLASSES:0,2" fresh)) = Some [0; 2] /\
  on_line " STOP " fresh = (set_running false fresh, Break).
Proof. repeat split. Qed.

(** C1 (as the code has it).  A read failure on the command input makes
    the listener return with [running] set to false, whatever it was before
    and wherever in the input the failure comes; nothing after it is read.
    A clean end of input leaves the detector as it is. *)
Theorem read_failure_forces_stop `{External} (before rest : list stdin_read)
    (self : VisionDetector) :
  listen_stdin (ReadFailure :: rest) self = set_running false self /\
  listener_turn (ReadFailure :: rest) self = (set_running false self, None) /\
  running (listen_stdin (before ++ ReadFailure :: rest) self) = false /\
  listen_stdin [] self = self.
Proof.
  repeat split. apply listen_stdin_after_failure.
Qed.

(** A detector that is running no longer is after a read failure. *)
Lemma read_failure_clears_running :
  running fresh = true /\
  running (listen_stdin [ReadFailure] fresh) = false /\
  running (listen_stdin [Line "CONF:0.5"; ReadFailure] fresh) = false /\
  running (listen_stdin [Line "CONF:0.5"] fresh) = true.
Proof. repeat split. Qed.

(** ** Supervisor loop *)

Section SupervisorFacts.
Context `{External}.

Lemma frame_numbers_app (a b : list effect) :
  frame_numbers (a ++ b) = frame_numbers a ++ frame_numbers b.
Proof.
  induction a as [|e a IH]; [reflexivity|].
  destruct e as [[ev|n|u|]| | | |]; simpl; now rewrite ?IH.
Qed.

Lemma frame_drops_app (a b : list effect) :
  frame_drops (a ++ b) = frame_drops a ++ frame_drops b.
Proof.
  induction a as [|e a IH]; [reflexivity|].
  destruct e as [[ev|n|u|]| | | |]; simpl; now rewrite ?IH.
Qed.

Lemma process_frame_ok_fields (fr : Frame) (clk : Clock)
      (self self' : VisionDetector) (ev : FrameEvent) :
  process_frame fr clk self = (Ok ev, self') ->
  frame ev = frame_count self + 1 /\
  frame_count self' = frame_count self + 1 /\
  running self' = running self /\
  rtsp_url self' = rtsp_url self.
Proof.
  intro E. apply process_frame_inv in E.
  destruct E as (results & mot & dets & inst & self1 & _ & C & _ & _ & A).
  apply compute_motion_inv in C. destruct C as (_ & -> & _).
  inversion A. simpl. auto.
Qed.

Lemma predict_failure_propagates (fr : Frame) (clk : Clock)
      (self : VisionDetector) (e : exn) :
  predict fr (conf self) (imgsz self) (target_classes self) = Raise e ->
  process_frame fr clk self = (Raise e, self).
Proof.
  intro P. now rewrite process_frame_unfold, P.
Qed.

(** The cases of one pass of the loop. *)
Lemma iteration_cases (c : capture) (self self' : VisionDetector)
      (effs : list effect) (e : option ending) :
  iteration c self = (self', effs, e) ->
  (exists how, e = Some how /\ effs = finally /\
               frame_count self' = frame_count self /\
               running self' = running self) \/
  (c = no_frame /\ running self = true /\ e = None /\ self' = self /\
   effs = retry self) \/
  (exists fr clk ev,
      c = got_frame fr clk /\ running self = true /\ e = None /\
      process_frame fr clk self = (Ok ev, self') /\
      effs = [emit (frame_line ev)]).
Proof.
  unfold iteration. destruct (running self) eqn:R; simpl.
  - destruct c as [|fr clk|].
    + intro K. inversion K. right. left. auto.
    + destruct (process_frame fr clk self) as [[ev|x] s1] eqn:P;
        intro K; inversion K; subst.
      * right. right. exists fr, clk, ev. auto.
      * left. exists (propagate x).
        apply process_frame_raise in P. destruct P as (F & Rn & _).
        rewrite Rn. auto.
    + intro K. inversion K. subst. left. exists keyboard_interrupt. auto.
  - intro K. inversion K. subst. left. exists loop_done. auto.
Qed.

Lemma iteration_running (c : capture) (self self' : VisionDetector)
      (effs : list effect) (e : option ending) :
  iteration c self = (self', effs, e) -> running self' = running self.
Proof.
  intro E. apply iteration_cases in E.
  destruct E as [(how & _ & _ & _ & R)|[(_ & _ & _ & -> & _)|E]]; auto.
  destruct E as (fr & clk & ev & _ & _ & _ & P & _).
  now apply process_frame_ok_fields in P.
Qed.

Lemma step_running (t : turn) (p : Process) :
  running (detector (step t p)) = true -> running (detector p) = true.
Proof.
  unfold step. destruct (ended p); [auto|].
  destruct t as [|c].
  - destruct (stdin p) as [input|]; [|auto].
    pose proof (listener_turn_running input (detector p)) as L.
    destruct (listener_turn input (detector p)) as [self' rest].
    exact L.
  - destruct (iteration c (detector p)) as [[self' effs] e] eqn:I.
    apply iteration_running in I. simpl. now rewrite I.
Qed.

Lemma run_turns_app (a b : list turn) (p : Process) :
  run_turns (a ++ b) p = run_turns b (run_turns a p).
Proof. apply fold_left_app. Qed.

Lemma run_turns_running (sched : list turn) (p : Process) :
  running (detector (run_turns sched p)) = true ->
  running (detector p) = true.
Proof.
  revert p. induction sched as [|t sched IH]; intro p; simpl; [auto|].
  intro R. apply IH in R. now apply step_running in R.
Qed.

Lemma step_ended (t : turn) (p : Process) (how : ending) :
  ended p = Some how -> step t p = p.
Proof. unfold step. now intros ->. Qed.

Lemma run_turns_ended (sched : list turn) (p : Process) (how : ending) :
  ended p = Some how -> run_turns sched p = p.
Proof.
  intro E. induction sched as [|t sched IH]; simpl; [reflexivity|].
  now rewrite (step_ended t p how E).
Qed.

End SupervisorFacts.

(** C8.  [running] never goes back to true: no turn of the listener and
    no pass of the supervisor loop leaves it true when it was false, so once
    it is false after some schedule it is false after every longer one. *)
Theorem running_never_set_again `{External} :
  (forall (line : string) (self : VisionDetector),
      running self = false -> running (fst (on_line line self)) = false) /\
  (forall (t : turn) (p : Process),
      running (detector p) = false ->
      running (detector (step t p)) = false) /\
  (forall (sched more : list turn) (p : Process),
      running (detector (run_turns sched p)) = false ->
      running (detector (run_turns (sched ++ more) p)) = false).
Proof.
  split; [|split].
  - intros line self R.
    destruct (running (fst (on_line line self))) eqn:E; [|reflexivity].
    apply on_line_running in E. congruence.
  - intros t p R.
    destruct (running (detector (step t p))) eqn:E; [|reflexivity].
    apply step_running in E. congruence.
  - intros sched more p R. rewrite run_turns_app.
    destruct (running (detector (run_turns more (run_turns sched p)))) eqn:E;
      [|reflexivity].
    apply run_turns_running in E. congruence.
Qed.

Lemma running_never_set_again_witness :
  running (detector (run_turns [listener] started)) = false /\
  running (detector (run_turns ([listener] ++ [listener;
                                  supervisor (got_frame black tick)])
                               started))
  = false /\
  running (fst (on_line "CONF:0.5" (set_running false fresh))) = false.
Proof.
  destruct (@running_never_set_again collaborators) as (Cmd & _ & Sched).
  split; [reflexivity|]. split.
  - apply Sched. reflexivity.
  - apply Cmd. reflexivity.
Defined.

Section LoopFacts.
Context `{External}.

Lemma step_numbered (t : turn) (p : Process) :
  numbered p -> numbered (step t p).
Proof.
  intros (k & Tr & Fc). unfold step.
  destruct (ended p); [now exists k|].
  destruct t as [|c].
  - destruct (stdin p) as [input|]; [|now exists k].
    pose proof (listener_turn_frame_count input (detector p)) as L.
    destruct (listener_turn input (detector p)) as [self' rest].
    exists k. simpl in *. split; [exact Tr|congruence].
  - destruct (iteration c (detector p)) as [[self' effs] e] eqn:I.
    apply iteration_cases in I. unfold numbered. simpl.
    destruct I as [(how & _ & -> & F & _)|[(_ & _ & _ & -> & ->)|I]].
    + exists k. rewrite frame_numbers_app, Tr. simpl.
      rewrite app_nil_r. split; [reflexivity|congruence].
    + exists k. rewrite frame_numbers_app, Tr. simpl.
      rewrite app_nil_r. split; [reflexivity|exact Fc].
    + destruct I as (fr & clk & ev & _ & _ & _ & P & ->).
      apply process_frame_ok_fields in P. destruct P as (Fe & Fs & _).
      exists (S k). rewrite frame_numbers_app, Tr, seq_S, map_app. simpl.
      rewrite Fe, Fs, Fc. split; [f_equal; f_equal; lia|lia].
Qed.

Lemma run_turns_numbered (sched : list turn) (p : Process) :
  numbered p -> numbered (run_turns sched p).
Proof.
  revert p. induction sched as [|t sched IH]; intros p N; simpl; [exact N|].
  apply IH, step_numbered, N.
Qed.

Lemma step_retry (p : Process) :
  ended p = None -> running (detector p) = true ->
  step (supervisor no_frame) p
  = {| detector := detector p; stdin := stdin p; ended := None;
       trace := trace p ++ retry (detector p) |}.
Proof.
  intros E R. unfold step, iteration. now rewrite E, R.
Qed.

Lemma run_retries (n : nat) (p : Process) :
  ended p = None -> running (detector p) = true ->
  run_turns (repeat (supervisor no_frame) n) p
  = {| detector := detector p; stdin := stdin p; ended := None;
       trace := trace p ++ List.concat (repeat (retry (detector p)) n) |}.
Proof.
  revert p. induction n as [|n IH]; intros p E R.
  - simpl. rewrite app_nil_r. destruct p. simpl in E. now subst.
  - change (run_turns (repeat (supervisor no_frame) (S n)) p)
      with (run_turns (repeat (supervisor no_frame) n)
                      (step (supervisor no_frame) p)).
    rewrite (step_retry p E R), IH by (simpl; auto). simpl.
    now rewrite <- app_assoc.
Qed.

Lemma retries_counted (self : VisionDetector) (n : nat) :
  frame_drops (List.concat (repeat (retry self) n))
  = repeat (frame_count self) n /\
  frame_numbers (List.concat (repeat (retry self) n)) = [].
Proof.
  induction n as [|n [IHd IHn]]; [split; reflexivity|].
  simpl. now rewrite IHd, IHn.
Qed.

Lemma step_trace (t : turn) (p : Process) :
  ended p = None ->
  exists effs,
    quiet effs /\
    ((ended (step t p) = None /\ trace (step t p) = trace p ++ effs) \/
     (exists how, ended (step t p) = Some how /\ effs = [] /\
                  trace (step t p) = trace p ++ finally)).
Proof.
  intro E. unfold step. rewrite E. destruct t as [|c].
  - exists []. split; [reflexivity|]. left.
    destruct (stdin p) as [input|].
    + destruct (listener_turn input (detector p)) as [self' rest].
      simpl. now rewrite app_nil_r.
    + now rewrite app_nil_r.
  - destruct (iteration c (detector p)) as [[self' effs] e] eqn:I.
    apply iteration_cases in I. simpl.
    destruct I as [(how & -> & -> & _)|[(_ & _ & -> & _ & ->)|I]].
    + exists []. split; [reflexivity|]. right. now exists how.
    + exists (retry (detector p)). split; [reflexivity|]. now left.
    + destruct I as (fr & clk & ev & _ & _ & -> & _ & ->).
      exists [emit (frame_line ev)]. split; [reflexivity|]. now left.
Qed.

Lemma quiet_app (a b : list effect) : quiet a -> quiet b -> quiet (a ++ b).
Proof.
  unfold quiet. intros A B. now rewrite existsb_app, A, B.
Qed.

Lemma run_turns_trace (sched : list turn) (p : Process) :
  ended p = None ->
  exists effs,
    quiet effs /\
    ((ended (run_turns sched p) = None /\
      trace (run_turns sched p) = trace p ++ effs) \/
     (exists how, ended (run_turns sched p) = Some how /\
                  trace (run_turns sched p) = trace p ++ effs ++ finally)).
Proof.
  revert p. induction sched as [|t sched IH]; intros p E.
  - exists []. split; [reflexivity|]. left. simpl. now rewrite app_nil_r.
  - simpl.
    destruct (step_trace t p E) as (e1 & Q1 & [[E1 T1]|(how & E1 & -> & T1)]).
    + destruct (IH _ E1) as (e2 & Q2 & [[E2 T2]|(how & E2 & T2)]).
      * exists (e1 ++ e2). split; [now apply quiet_app|]. left.
        split; [exact E2|]. now rewrite T2, T1, app_assoc.
      * exists (e1 ++ e2). split; [now apply quiet_app|]. right.
        exists how. split; [exact E2|].
        now rewrite T2, T1, <- !app_assoc.
    + exists []. split; [reflexivity|]. right. exists how.
      rewrite (run_turns_ended sched _ how E1). split; [exact E1|exact T1].
Qed.

End LoopFacts.

(** C6.  From a new detector, whatever the two threads do, the frame
    numbers of the per-frame records emitted so far are exactly 1, 2, ..., k
    and the counter stands at k: reconnects and commands in between change
    nothing.  A pass of the loop either emits no per-frame record and leaves
    the counter (a dropped read, a frame whose processing raised, the end of
    the loop), or processes a frame, adds one to the counter and emits the
    record with the new value; the listener never touches the counter. *)
Theorem frame_index_gapless `{External} :
  (forall (url : string) (c : Q) (classes : option (list Z)) (size : Z)
          (input : list stdin_read) (sched : list turn),
      exists k : nat,
        frame_numbers
          (trace (run_turns sched
                            (launch true input (init url c classes size))))
        = map Z.of_nat (seq 1 k) /\
        frame_count
          (detector (run_turns sched
                               (launch true input (init url c classes size))))
        = Z.of_nat k) /\
  (forall (c : capture) (self self' : VisionDetector) (effs : list effect)
          (e : option ending),
      iteration c self = (self', effs, e) ->
      (frame_numbers effs = [] /\ frame_count self' = frame_count self) \/
      (exists fr clk ev,
          c = got_frame fr clk /\
          process_frame fr clk self = (Ok ev, self') /\
          frame_numbers effs = [frame_count self + 1] /\
          frame_count self' = frame_count self + 1)) /\
  (forall (input : list stdin_read) (self : VisionDetector),
      frame_count (fst (listener_turn input self)) = frame_count self).
Proof.
  split; [|split].
  - intros url c classes size input sched.
    apply (run_turns_numbered sched). exists O. split; reflexivity.
  - intros c self self' effs e I. apply iteration_cases in I.
    destruct I as [(how & _ & -> & F & _)|[(_ & _ & _ & -> & ->)|I]].
    + left. split; [reflexivity|exact F].
    + left. split; reflexivity.
    + destruct I as (fr & clk & ev & -> & _ & _ & P & ->).
      right. exists fr, clk, ev.
      pose proof (process_frame_ok_fields _ _ _ _ _ P) as (Fe & Fs & _).
      simpl. rewrite Fe. auto.
  - apply listener_turn_frame_count.
Qed.

Lemma frame_index_gapless_witness :
  (exists k : nat,
      frame_numbers (trace session) = map Z.of_nat (seq 1 k) /\
      frame_count (detector session) = Z.of_nat k) /\
  frame_numbers (trace session) = [1; 2] /\
  frame_drops (trace session) = [1] /\
  ((frame_numbers (retry fresh) = [] /\ frame_count fresh = frame_count fresh)
   \/ exists fr clk ev,
        no_frame = got_frame fr clk /\
        process_frame fr clk fresh = (Ok ev, fresh) /\
        frame_numbers (retry fresh) = [frame_count fresh + 1] /\
        frame_count fresh = frame_count fresh + 1).
Proof.
  destruct (@frame_index_gapless collaborators) as (Inv & Pass & _).
  split; [|split; [reflexivity|split; [reflexivity|]]].
  - exact (Inv "rtsp://camera/stream"%string (35 # 100)%Q None 640
               [Line "CONF:0.5"]
               [supervisor (got_frame black tick); supervisor no_frame;
                listener; supervisor (got_frame dim tick)]).
  - exact (Pass no_frame fresh fresh (retry fresh) None eq_refl).
Defined.

Section RetryFacts.
Context `{External}.

Lemma idle_ends_on_stop (sched : list turn) (p : Process) (how : ending) :
  ended p = None -> Forall idle sched ->
  ended (run_turns sched p) = Some how ->
  how = loop_done /\ running (detector (run_turns sched p)) = false.
Proof.
  revert p. induction sched as [|t sched IH]; intros p E F En.
  - simpl in En. congruence.
  - inversion F as [|t' s' It Fs]; subst. simpl in En |- *.
    destruct It as [->| ->].
    + apply IH; [|exact Fs|exact En].
      unfold step. rewrite E. destruct (stdin p) as [input|]; [|exact E].
      now destruct (listener_turn input (detector p)).
    + destruct (running (detector p)) eqn:R.
      * apply IH; [|exact Fs|exact En]. now rewrite step_retry.
      * assert (S : step (supervisor no_frame) p
                    = {| detector := detector p; stdin := stdin p;
                         ended := Some loop_done;
                         trace := trace p ++ finally |}).
        { unfold step, iteration. now rewrite E, R. }
        rewrite S in *.
        set (q := {| detector := detector p; stdin := stdin p;
                     ended := Some loop_done;
                     trace := trace p ++ finally |}) in *.
        rewrite (run_turns_ended sched q loop_done eq_refl) in *.
        simpl in *. split; [congruence|exact R].
Qed.

Lemma on_line_not_stop (line : string) (self : VisionDetector) :
  strip line <> "STOP"%string ->
  snd (on_line line self) = Continue /\
  running (fst (on_line line self)) = running self.
Proof.
  intro N. apply String.eqb_neq in N. unfold on_line. rewrite N.
  destruct (startswith (strip line) "CONF:").
  { destruct (float_of_str _); split; reflexivity. }
  destruct (startswith (strip line) "CLASSES:"); [|split; reflexivity].
  destruct (all_some _ _); split; reflexivity.
Qed.

Lemma idle_ends_by_listener (sched : list turn) (p : Process) (how : ending) :
  ended p = None -> running (detector p) = true -> Forall idle sched ->
  ended (run_turns sched p) = Some how ->
  exists input, stdin p = Some input /\ Exists stops input.
Proof.
  revert p. induction sched as [|t sched IH]; intros p E R F En.
  - simpl in En. congruence.
  - inversion F as [|t' s' It Fs]; subst. simpl in En.
    destruct It as [->| ->].
    + unfold step in En. rewrite E in En.
      destruct (stdin p) as [input|] eqn:In.
      2:{ destruct (IH p E R Fs En) as (i & K & _). congruence. }
      exists input. split; [reflexivity|].
      destruct input as [|[l|] rest].
      * simpl in En.
        match type of En with
        | ended (run_turns _ ?q) = _ =>
            destruct (IH q eq_refl R Fs En) as (input' & K & _)
        end.
        discriminate.
      * destruct (string_dec (strip l) "STOP") as [S|N].
        { apply Exists_cons_hd. right. now exists l. }
        simpl in En. destruct (on_line_not_stop l (detector p) N) as [C Rn].
        destruct (on_line l (detector p)) as [self' fl]. simpl in C, Rn.
        subst fl.
        match type of En with
        | ended (run_turns _ ?q) = _ =>
            destruct (IH q eq_refl (eq_trans Rn R) Fs En) as (input' & K & X)
        end.
        simpl in K. inversion K. subst input'. now apply Exists_cons_tl.
      * apply Exists_cons_hd. now left.
    + rewrite (step_retry p E R) in En.
      match type of En with
      | ended (run_turns _ ?q) = _ => exact (IH q eq_refl R Fs En)
      end.
Qed.

End RetryFacts.

(** C7 (as the code has it).  A failed read while [running] is true emits
    one [frame_drop] diagnostic carrying the current frame count, sleeps 1
    second, then releases the capture, opens it again, and leaves the loop
    running with the detector untouched.  Any number of failed reads in a row
    does the same, one diagnostic per failure, and a successful read after
    them emits the record numbered one past the count before the failures.
    While the main thread meets only failed reads, the loop ends only once
    [running] is false, and when it was true to begin with the command input
    holds what cleared it: a [STOP] line or a read failure. *)
Theorem frame_drop_retry `{External} :
  (forall self : VisionDetector,
      running self = true ->
      iteration no_frame self
      = (self,
         [emit (frame_drop (frame_count self)); sleep 1; cap_release;
          VideoCapture (rtsp_url self); cap_set_buffersize 1],
         None)) /\
  (forall (n : nat) (p : Process),
      ended p = None -> running (detector p) = true ->
      ended (run_turns (retries n) p) = None /\
      detector (run_turns (retries n) p) = detector p /\
      trace (run_turns (retries n) p)
      = trace p ++ List.concat (repeat (retry (detector p)) n) /\
      frame_drops (trace (run_turns (retries n) p))
      = frame_drops (trace p) ++ repeat (frame_count (detector p)) n /\
      frame_numbers (trace (run_turns (retries n) p))
      = frame_numbers (trace p)) /\
  (forall (n : nat) (p : Process) (fr : Frame) (clk : Clock)
          (ev : FrameEvent) (self' : VisionDetector),
      ended p = None -> running (detector p) = true ->
      process_frame fr clk (detector p) = (Ok ev, self') ->
      ended (run_turns (retries n ++ [supervisor (got_frame fr clk)]) p)
      = None /\
      trace (run_turns (retries n ++ [supervisor (got_frame fr clk)]) p)
      = trace p ++ List.concat (repeat (retry (detector p)) n)
        ++ [emit (frame_line ev)] /\
      frame ev = frame_count (detector p) + 1) /\
  (forall (sched : list turn) (p : Process) (how : ending),
      ended p = None -> Forall idle sched ->
      ended (run_turns sched p) = Some how ->
      how = loop_done /\ running (detector (run_turns sched p)) = false /\
      (running (detector p) = true ->
       exists input, stdin p = Some input /\ Exists stops input)).
Proof.
  split; [|split; [|split]].
  - intros self R. unfold iteration. now rewrite R.
  - intros n p E R. unfold retries. rewrite (run_retries n p E R). simpl.
    destruct (retries_counted (detector p) n) as [D N].
    rewrite frame_drops_app, frame_numbers_app, D, N, app_nil_r. auto.
  - intros n p fr clk ev self' E R P. unfold retries.
    rewrite run_turns_app, (run_retries n p E R). simpl.
    unfold step, iteration. simpl. rewrite R, P. simpl.
    rewrite <- app_assoc. repeat split.
    now apply process_frame_ok_fields in P.
  - intros sched p how E F En.
    destruct (idle_ends_on_stop sched p how E F En) as [L Off].
    split; [exact L|]. split; [exact Off|].
    intro R. exact (idle_ends_by_listener sched p how E R F En).
Qed.

Lemma frame_drop_retry_witness :
  iteration no_frame fresh
  = (fresh,
     [emit (frame_drop 0); sleep 1; cap_release;
      VideoCapture "rtsp://camera/stream"; cap_set_buffersize 1], None) /\
  frame_drops (trace (run_turns (retries 3) started)) = [0; 0; 0] /\
  (ended (run_turns (retries 3 ++ [supervisor (got_frame black tick)])
                    started) = None /\
   frame_numbers
     (trace (run_turns (retries 3 ++ [supervisor (got_frame black tick)])
                       started)) = [1]) /\
  running (detector (run_turns [supervisor no_frame; listener;
                                supervisor no_frame] started)) = false /\
  exists input, stdin started = Some input /\ Exists stops input.
Proof.
  destruct (@frame_drop_retry collaborators)
    as (One & Many & Resume & Stop).
  split; [exact (One fresh eq_refl)|]. split; [|split].
  - destruct (Many 3%nat started eq_refl eq_refl) as (_ & _ & _ & D & _).
    exact D.
  - destruct (process_frame (H := collaborators) black tick fresh)
      as [r s'] eqn:P.
    destruct r as [ev|e]; [|vm_compute in P; discriminate].
    destruct (Resume 3%nat started black tick ev s' eq_refl eq_refl P)
      as (En & Tr & Fe).
    split; [exact En|].
    rewrite Tr, !frame_numbers_app.
    destruct (retries_counted fresh 3) as [_ N].
    change (detector started) with fresh.
    rewrite N. simpl. rewrite Fe. reflexivity.
  - assert (En : ended (run_turns [supervisor no_frame; listener;
                                   supervisor no_frame] started)
                 = Some loop_done) by reflexivity.
    destruct (Stop [supervisor no_frame; listener; supervisor no_frame]
                   started loop_done eq_refl
                   (Forall_cons _ (or_intror eq_refl)
                      (Forall_cons _ (or_introl eq_refl)
                         (Forall_cons _ (or_intror eq_refl) (Forall_nil _))))
                   En) as (_ & Off & Cause).
    split; [exact Off|]. exact (Cause eq_refl).
Defined.

(** A read failure on the command input ends the retry loop although no
    [STOP] was ever sent; and a failed read sleeps before it releases the
    capture, not after. *)
Lemma retry_ends_without_stop_command :
  ended (run_turns [supervisor no_frame; listener; supervisor no_frame]
                   (launch true [ReadFailure] fresh))
  = Some loop_done /\
  (forall l, ~ In (Line l) [ReadFailure]) /\
  frame_drops
    (trace (run_turns [supervisor no_frame; listener; supervisor no_frame]
                      (launch true [ReadFailure] fresh))) = [0] /\
  snd (fst (iteration no_frame fresh))
  = [emit (frame_drop 0); sleep 1; cap_release;
     VideoCapture "rtsp://camera/stream"; cap_set_buffersize 1] /\
  snd (fst (iteration no_frame fresh))
  <> [emit (frame_drop 0); cap_release; sleep 1;
      VideoCapture "rtsp://camera/stream"; cap_set_buffersize 1].
Proof.
  split; [reflexivity|]. split.
  - intros l [K|[]]. discriminate.
  - split; [reflexivity|]. split; [reflexivity|]. discriminate.
Qed.

(** C10.  However the loop ends, the [finally] block runs: the capture is
    released and the [stopped] status is the last line written.  The loop
    ends with [running] false (a stop), on a keyboard interrupt, and on any
    exception out of frame processing, an engine failure among them; in each
    case the effects of that pass are the release followed by [stopped].
    Over a whole run that has ended, the trace is what was written before,
    without any [stopped], followed by the release and [stopped], and no
    further turn adds to it. *)
Theorem stopped_on_every_exit `{External} :
  (forall (c : capture) (self : VisionDetector),
      running self = false ->
      iteration c self = (self, [cap_release; emit stopped], Some loop_done)) /\
  (forall self : VisionDetector,
      running self = true ->
      iteration interrupted self
      = (self, [cap_release; emit stopped], Some keyboard_interrupt)) /\
  (forall (fr : Frame) (clk : Clock) (self self' : VisionDetector) (e : exn),
      running self = true ->
      process_frame fr clk self = (Raise e, self') ->
      iteration (got_frame fr clk) self
      = (self', [cap_release; emit stopped], Some (propagate e))) /\
  (forall (fr : Frame) (clk : Clock) (self : VisionDetector) (e : exn),
      running self = true ->
      predict fr (conf self) (imgsz self) (target_classes self) = Raise e ->
      iteration (got_frame fr clk) self
      = (self, [cap_release; emit stopped], Some (propagate e))) /\
  (forall (sched more : list turn) (p : Process) (how : ending),
      ended p = None ->
      ended (run_turns sched p) = Some how ->
      (exists effs,
          existsb is_stopped effs = false /\
          trace (run_turns sched p)
          = trace p ++ effs ++ [cap_release; emit stopped]) /\
      run_turns (sched ++ more) p = run_turns sched p).
Proof.
  split; [|split; [|split; [|split]]].
  - intros c self R. unfold iteration. now rewrite R.
  - intros self R. unfold iteration. now rewrite R.
  - intros fr clk self self' e R P. unfold iteration. now rewrite R, P.
  - intros fr clk self e R P. unfold iteration.
    now rewrite R, (predict_failure_propagates fr clk self e P).
  - intros sched more p how E En. split.
    + destruct (run_turns_trace sched p E)
        as (effs & Q & [[E1 _]|(how' & _ & T)]); [congruence|].
      exists effs. split; [exact Q|exact T].
    + rewrite run_turns_app. now apply (run_turns_ended more _ how).
Qed.

Lemma stopped_on_every_exit_witness :
  iteration (got_frame black tick) (set_running false fresh)
  = (set_running false fresh, [cap_release; emit stopped], Some loop_done) /\
  iteration interrupted fresh
  = (fresh, [cap_release; emit stopped], Some keyboard_interrupt) /\
  iteration (got_frame white tick) fresh
  = (fresh, [cap_release; emit stopped], Some (uncaught engine_error)) /\
  (exists effs,
      existsb is_stopped effs = false /\
      trace (run_turns [supervisor no_frame;
                        supervisor (got_frame white tick)] started)
      = trace started ++ effs ++ [cap_release; emit stopped]) /\
  (exists effs,
      existsb is_stopped effs = false /\
      trace (run_turns [listener; supervisor (got_frame black tick)] started)
      = trace started ++ effs ++ [cap_release; emit stopped]).
Proof.
  destruct (@stopped_on_every_exit collaborators)
    as (Stop & Intr & _ & Engine & Run).
  split; [exact (Stop (got_frame black tick) (set_running false fresh) eq_refl)|].
  split; [exact (Intr fresh eq_refl)|].
  split; [exact (Engine white tick fresh engine_error eq_refl eq_refl)|].
  split.
  - exact (proj1 (Run [supervisor no_frame; supervisor (got_frame white tick)]
                      [] started (uncaught engine_error) eq_refl eq_refl)).
  - exact (proj1 (Run [listener; supervisor (got_frame black tick)]
                      [] started loop_done eq_refl eq_refl)).
Defined.

Example end_to_end :
  frame_numbers (trace recovered) = [1; 2; 3; 4] /\
  frame_drops (trace recovered) = [3] /\
  ended recovered = Some loop_done /\
  existsb is_stopped (trace recovered) = true.
Proof. repeat split. Qed.

Example area_is_of_the_unrounded_box :
  detection_of [(0, "person"%string)] person
  = Ok {| d_class := "person"; d_conf := 877 # 1000;
          d_bbox := [120; 45; 340; 360]; d_area := 69536 |} /\
  (340 - 120) * (360 - 45) = 69300.
Proof. split; reflexivity. Qed.

(** * Further properties of the detector *)

Section ListenerMore.
Context `{External}.

Lemma split_not_nil (sep : ascii) (s : string) : split sep s <> [].
Proof.
  destruct s as [|c s]; simpl; [discriminate|].
  destruct (Ascii.eqb c sep); [discriminate|].
  destruct (split sep s); discriminate.
Qed.

Lemma all_some_length {A B} (f : A -> option B) (l : list A) (l' : list B) :
  all_some f l = Some l' -> List.length l' = List.length l.
Proof.
  revert l'. induction l as [|a l IH]; simpl; intros l' E.
  - inversion E. reflexivity.
  - destruct (f a); [|discriminate].
    destruct (all_some f l) as [bs|]; [|discriminate].
    inversion E. simpl. now rewrite (IH bs).
Qed.

(** What a command can do to the detector. *)
Lemma on_line_effect (line : string) (self : VisionDetector) :
  fst (on_line line self) = self \/
  fst (on_line line self) = set_running false self \/
  (exists v, fst (on_line line self) = set_conf v self) \/
  (exists l, l <> [] /\
             fst (on_line line self) = set_target_classes (Some l) self).
Proof.
  unfold on_line.
  destruct (String.eqb (strip line) "STOP"); [right; left; reflexivity|].
  destruct (startswith (strip line) "CONF:").
  { destruct (float_of_str _) as [v|]; [|left; reflexivity].
    right. right. left. now exists v. }
  destruct (startswith (strip line) "CLASSES:"); [|left; reflexivity].
  destruct (all_some _ _) as [l|] eqn:A; [|left; reflexivity].
  right. right. right. exists l. split; [|reflexivity].
  intros ->. apply all_some_length in A.
  apply (split_not_nil "," (slice_from 8 (strip line))).
  now apply length_zero_iff_nil.
Qed.

End ListenerMore.

(** X1.  The listener writes only the threshold, the class filter and
    [running]: whatever it reads, the frame counter, the stored grey image,
    the rate estimate, the image size and the stream address are as before. *)
Theorem listener_keeps_pipeline_state `{External} (input : list stdin_read)
    (self : VisionDetector) :
  frame_count (listen_stdin input self) = frame_count self /\
  prev_gray (listen_stdin input self) = prev_gray self /\
  fps_ema (listen_stdin input self) = fps_ema self /\
  imgsz (listen_stdin input self) = imgsz self /\
  rtsp_url (listen_stdin input self) = rtsp_url self.
Proof.
  revert self. induction input as [|r input IH]; intro self; simpl.
  - auto.
  - destruct r as [l|]; [|simpl; auto].
    pose proof (on_line_effect l self) as E.
    destruct (on_line l self) as [self' [|]]; simpl in E.
    + destruct (IH self') as (A & B & C & D & F).
      rewrite A, B, C, D, F.
      destruct E as [->|[->|[[v ->]|(l' & _ & ->)]]]; simpl; auto.
    + destruct E as [->|[->|[[v ->]|(l' & _ & ->)]]]; simpl; auto.
Qed.

Section ListenerEnd.
Context `{External}.

Lemma on_line_stop (line : string) (self : VisionDetector) :
  strip line = "STOP"%string ->
  on_line line self = (set_running false self, Break).
Proof.
  intro S. unfold on_line. now rewrite S.
Qed.

Lemma listen_stdin_cut (before : list stdin_read) (last : stdin_read)
      (rest : list stdin_read) (self : VisionDetector) :
  (forall s, snd (listener_turn (last :: rest) s) = None) ->
  listen_stdin (before ++ last :: rest) self
  = listen_stdin (before ++ [last]) self.
Proof.
  intro B. revert self.
  induction before as [|r before IH]; intro self; simpl.
  - destruct last as [l|]; [|reflexivity].
    specialize (B self). simpl in B.
    destruct (on_line l self) as [self' [|]]; simpl in B;
      [discriminate|reflexivity].
  - destruct r as [l|]; [|reflexivity].
    destruct (on_line l self) as [self' [|]]; [apply IH|reflexivity].
Qed.

End ListenerEnd.

(** X2.  The listener reads nothing after a [STOP] line: whatever follows
    it on the input, commands included, has no effect, and the method
    returns with [running] false. *)
Theorem nothing_applied_after_stop `{External}
    (before rest : list stdin_read) (line : string) (self : VisionDetector) :
  strip line = "STOP"%string ->
  listen_stdin (before ++ Line line :: rest) self
  = listen_stdin (before ++ [Line line]) self /\
  running (listen_stdin (before ++ Line line :: rest) self) = false.
Proof.
  intro S.
  assert (Cut : listen_stdin (before ++ Line line :: rest) self
                = listen_stdin (before ++ [Line line]) self).
  { apply listen_stdin_cut. intro s. simpl. now rewrite on_line_stop. }
  split; [exact Cut|]. rewrite Cut. clear Cut. revert self.
  induction before as [|r before IH]; intro self; simpl.
  - now rewrite on_line_stop.
  - destruct r as [l|]; [|reflexivity].
    destruct (on_line l self) as [self' [|]] eqn:E; [apply IH|].
    apply on_line_break in E. now subst.
Qed.

Lemma nothing_applied_after_stop_witness :
  listen_stdin ([Line "CONF:0.5"] ++ Line " STOP" :: [Line "CONF:0.9"]) fresh
  = listen_stdin ([Line "CONF:0.5"] ++ [Line " STOP"]) fresh /\
  running (listen_stdin ([Line "CONF:0.5"] ++ Line " STOP"
                         :: [Line "CONF:0.9"]) fresh) = false.
Proof.
  exact (nothing_applied_after_stop (H := collaborators)
           [Line "CONF:0.5"] [Line "CONF:0.9"] " STOP" fresh eq_refl).
Defined.

(** X3.  No command clears the class filter: after any input the filter
    is the one the detector had or a non-empty list, so a filter once set is
    never back to none. *)
Theorem class_filter_never_cleared `{External} (input : list stdin_read)
    (self : VisionDetector) :
  (target_classes (listen_stdin input self) = target_classes self \/
   exists l, l <> [] /\ target_classes (listen_stdin input self) = Some l) /\
  (target_classes self <> None ->
   target_classes (listen_stdin input self) <> None).
Proof.
  assert (Main : forall input self,
             target_classes (listen_stdin input self) = target_classes self \/
             exists l, l <> [] /\
                       target_classes (listen_stdin input self) = Some l).
  { clear input self. intro input.
    induction input as [|r input IH]; intro self; simpl.
    - now left.
    - destruct r as [l|]; [|now left].
      pose proof (on_line_effect l self) as E.
      destruct (on_line l self) as [self' [|]]; simpl in E.
      + destruct (IH self') as [Same|New]; [|now right].
        rewrite Same.
        destruct E as [->|[->|[[v ->]|(l' & N & ->)]]]; simpl; auto.
        right. now exists l'.
      + destruct E as [->|[->|[[v ->]|(l' & N & ->)]]]; simpl; auto.
        right. now exists l'. }
  split; [apply Main|].
  intros Set0 E. destruct (Main input self) as [Same|(l & _ & New)];
    congruence.
Qed.

Lemma class_filter_never_cleared_witness :
  target_classes
    (listen_stdin [Line "CLASSES:"; Line "CLASSES:none"; Line "CLASSES:,"]
                  (set_target_classes (Some [0]) fresh))
  <> None.
Proof.
  apply (class_filter_never_cleared (H := collaborators)). discriminate.
Defined.

(** X4.  Processing a frame, whether it returns or raises, never writes
    what the listener owns: the threshold, the class filter, [running], the
    image size and the stream address are as before. *)
Theorem process_frame_keeps_parameters `{External} (fr : Frame)
    (clk : Clock) (self : VisionDetector) :
  conf (snd (process_frame fr clk self)) = conf self /\
  target_classes (snd (process_frame fr clk self)) = target_classes self /\
  running (snd (process_frame fr clk self)) = running self /\
  imgsz (snd (process_frame fr clk self)) = imgsz self /\
  rtsp_url (snd (process_frame fr clk self)) = rtsp_url self.
Proof.
  rewrite process_frame_unfold.
  destruct (predict fr _ _ _) as [results|e1]; [|simpl; auto].
  destruct (compute_motion fr self) as [[mot|e2] self1] eqn:C.
  - apply compute_motion_inv in C. destruct C as (_ & -> & _).
    destruct (mapM _ _) as [dets|e3]; [|simpl; auto].
    destruct (instantaneous_fps _) as [inst|e4]; simpl; auto.
  - apply compute_motion_raise in C. subst. simpl. auto.
Qed.

(** ** Motion score *)

Lemma intensity_inj (a b : Byte.byte) : intensity a = intensity b -> a = b.
Proof.
  unfold intensity. intro E. apply N2Z.inj in E.
  pose proof (Byte.of_to_N a) as A. pose proof (Byte.of_to_N b) as B.
  rewrite E in A. congruence.
Qed.

Lemma total_zero (f : nat -> Z) (l : list nat) :
  (forall i, 0 <= f i) ->
  (total (map f l) = 0 <-> forall i, In i l -> f i = 0).
Proof.
  intro P. induction l as [|a l IH]; simpl.
  - split; [intros _ i []|reflexivity].
  - assert (T : 0 <= total (map f l)).
    { clear IH. induction l as [|b l IHl]; simpl; [lia|].
      specialize (P b). lia. }
    split.
    + intros E i [->|I].
      * specialize (P i). lia.
      * apply IH; [|exact I]. specialize (P a). lia.
    + intro Z0. rewrite (Z0 a) by now left.
      apply IH. intros i I. apply Z0. now right.
Qed.

Lemma mean_abs_difference_zero (a b : GrayImage) :
  (rows a * cols a)%nat <> O ->
  ((mean_abs_difference a b == 0)%Q <->
   forall i, (i < rows a * cols a)%nat -> px a i = px b i).
Proof.
  intro N. unfold mean_abs_difference, np_mean.
  set (f := fun i => Z.abs (intensity (px a i) - intensity (px b i))).
  rewrite length_map, length_seq.
  assert (P : forall i, 0 <= f i) by (intro i; unfold f; lia).
  pose proof (total_zero f (seq 0 (rows a * cols a)) P) as T.
  set (n := (rows a * cols a)%nat) in *.
  assert (Np : ~ (inject_Z (Z.of_nat n) == 0)%Q).
  { unfold Qeq. simpl. lia. }
  set (t := total (map f (seq 0 n))) in *.
  assert (Q0 : (inject_Z t / inject_Z (Z.of_nat n) / 255 == 0)%Q <-> t = 0).
  { split.
    - intro E.
      assert (E1 : (inject_Z t == 0)%Q).
      { setoid_replace (inject_Z t)
          with (inject_Z t / inject_Z (Z.of_nat n) / 255
                * (255 * inject_Z (Z.of_nat n)))%Q by (field; exact Np).
        rewrite E. ring. }
      unfold Qeq in E1. simpl in E1. lia.
    - intros ->. unfold Qdiv. ring. }
  rewrite Q0, T. split.
  - intros Z0 i L. apply intensity_inj.
    assert (F : f i = 0) by (apply Z0, in_seq; lia).
    unfold f in F. lia.
  - intros Same i I. apply in_seq in I. unfold f.
    rewrite (Same i) by lia. lia.
Qed.

Lemma mean_abs_difference_sym (a b : GrayImage) :
  rows a = rows b -> cols a = cols b ->
  mean_abs_difference a b = mean_abs_difference b a.
Proof.
  intros R C. unfold mean_abs_difference. rewrite R, C.
  f_equal. f_equal. apply map_ext. intro i. lia.
Qed.

(** X5.  After a frame [f], a frame [g] of the same shape is scored, and
    its score is 0 exactly when the two smoothed images agree at every
    pixel; the score does not depend on which of the two came first. *)
Theorem motion_zero_iff_unchanged `{External} (f g : Frame)
    (self : VisionDetector) :
  nonempty f -> shape g = shape f -> prev_gray self = Some (gray_of f) ->
  exists v,
    compute_motion g self = (Ok v, set_prev_gray (Some (gray_of g)) self) /\
    ((v == 0)%Q <->
     forall i, (i < fst (shape f) * snd (shape f))%nat ->
               smoothed f i = smoothed g i) /\
    v = mean_abs_difference (gray_of g) (gray_of f).
Proof.
  intros N S P.
  exists (mean_abs_difference (gray_of f) (gray_of g)). split; [|split].
  - apply compute_motion_next; simpl; try (now rewrite S); try assumption.
    unfold nonempty in *. now rewrite S.
  - apply (mean_abs_difference_zero (gray_of f) (gray_of g)). exact N.
  - apply mean_abs_difference_sym; simpl; now rewrite S.
Qed.

Lemma motion_zero_iff_unchanged_witness :
  exists v,
    compute_motion grey (set_prev_gray (Some (gray_of grey)) fresh)
    = (Ok v, set_prev_gray (Some (gray_of grey))
               (set_prev_gray (Some (gray_of grey)) fresh)) /\
    ((v == 0)%Q <->
     forall i, (i < fst (shape grey) * snd (shape grey))%nat ->
               smoothed grey i = smoothed grey i) /\
    v = mean_abs_difference (gray_of grey) (gray_of grey).
Proof.
  apply (motion_zero_iff_unchanged (H := collaborators) grey grey).
  - vm_compute. discriminate.
  - reflexivity.
  - reflexivity.
Defined.

(** ** Records over a run *)

Lemma frame_events_app (a b : list effect) :
  frame_events (a ++ b) = frame_events a ++ frame_events b.
Proof.
  induction a as [|e a IH]; [reflexivity|].
  destruct e as [[ev|n|u|]| | | |]; simpl; now rewrite ?IH.
Qed.

Lemma frame_events_retries (self : VisionDetector) (n : nat) :
  frame_events (List.concat (repeat (retry self) n)) = [].
Proof.
  induction n as [|n IH]; [reflexivity|]. simpl. exact IH.
Qed.

(** X6.  A reconnect does not reset the motion history: after any number
    of failed reads, the record of the next frame carries the motion of that
    frame against the last frame processed before the failures, rounded to 4
    decimals, and it is the only record those turns add. *)
Theorem motion_history_survives_reconnect `{External} (n : nat)
    (p : Process) (f g : Frame) (clk : Clock) (ev : FrameEvent)
    (self' : VisionDetector) :
  ended p = None -> running (detector p) = true ->
  prev_gray (detector p) = Some (gray_of f) -> shape g = shape f ->
  process_frame g clk (detector p) = (Ok ev, self') ->
  frame_events
    (trace (run_turns (retries n ++ [supervisor (got_frame g clk)]) p))
  = frame_events (trace p) ++ [ev] /\
  motion ev = Py.round (mean_abs_difference (gray_of f) (gray_of g)) 4.
Proof.
  intros E R P S Pf. split.
  - unfold retries. rewrite run_turns_app, (run_retries n p E R). simpl.
    unfold step, iteration. simpl. rewrite R, Pf. simpl.
    rewrite !frame_events_app, frame_events_retries, app_nil_r. reflexivity.
  - apply process_frame_inv in Pf.
    destruct Pf as (results & mot & dets & inst & self1 & _ & C & _ & _ & A).
    apply compute_motion_inv in C.
    destruct C as (_ & _ & [[P0 _]|(q & Pq & _ & _ & ->)]); [congruence|].
    rewrite P in Pq. inversion Pq. subst q.
    inversion A. reflexivity.
Qed.

Lemma motion_history_survives_reconnect_witness :
  exists ev,
    frame_events
      (trace (run_turns (retries 2 ++ [supervisor (got_frame dim tick)])
                        (launch true [] after_black)))
    = frame_events (trace (launch true [] after_black)) ++ [ev] /\
    motion ev = Py.round (mean_abs_difference (gray_of black) (gray_of dim)) 4.
Proof.
  destruct (process_frame (H := collaborators) dim tick after_black)
    as [r s'] eqn:P.
  destruct r as [ev|e]; [|vm_compute in P; discriminate].
  exists ev.
  exact (motion_history_survives_reconnect (H := collaborators) 2
           (launch true [] after_black) black dim tick ev s'
           eq_refl eq_refl eq_refl eq_refl P).
Defined.

Lemma round_half_even_bounds (y : Q) (lo hi : Z) :
  (inject_Z lo <= y)%Q -> (y <= inject_Z hi)%Q ->
  lo <= round_half_even y <= hi.
Proof.
  intros L U. unfold round_half_even.
  pose proof (Qfloor_resp_le _ _ L) as Fl. rewrite Qfloor_Z in Fl.
  pose proof (Qfloor_resp_le _ _ U) as Fu. rewrite Qfloor_Z in Fu.
  pose proof (Qfloor_le y) as Lo.
  destruct (Z.eq_dec (Qfloor y) hi) as [Top|Below].
  - assert (Yd : (y == inject_Z hi)%Q).
    { apply Qle_antisym; [exact U|]. now rewrite <- Top. }
    assert (C : (y - inject_Z (Qfloor y) ?= 1 # 2)%Q = Lt).
    { apply Qlt_alt. rewrite Top, Yd. unfold Qminus. rewrite Qplus_opp_r.
      reflexivity. }
    rewrite C. lia.
  - destruct (y - inject_Z (Qfloor y) ?= 1 # 2)%Q;
      [destruct (Z.even (Qfloor y))| |]; lia.
Qed.

Lemma round_nonneg (x : Q) (n : nat) : (0 <= x)%Q -> (0 <= Py.round x n)%Q.
Proof.
  intro P.
  assert (Y : (inject_Z 0 <= x * inject_Z (Z.pos (pow10 n)))%Q).
  { apply Qmult_le_0_compat; [exact P|discriminate]. }
  assert (U : (x * inject_Z (Z.pos (pow10 n))
               <= inject_Z (Qceiling (x * inject_Z (Z.pos (pow10 n)))))%Q)
    by apply Qle_ceiling.
  pose proof (round_half_even_bounds _ _ _ Y U) as [B _].
  unfold Py.round, Qle. simpl. lia.
Qed.

Lemma round_at_most_one (x : Q) (n : nat) :
  (x <= 1)%Q -> (Py.round x n <= 1)%Q.
Proof.
  intro P.
  assert (U : (x * inject_Z (Z.pos (pow10 n))
               <= inject_Z (Z.pos (pow10 n)))%Q).
  { rewrite <- (Qmult_1_l (inject_Z (Z.pos (pow10 n)))) at 2.
    apply Qmult_le_compat_r; [exact P|discriminate]. }
  assert (L : (inject_Z (Qfloor (x * inject_Z (Z.pos (pow10 n))))
               <= x * inject_Z (Z.pos (pow10 n)))%Q)
    by apply Qfloor_le.
  pose proof (round_half_even_bounds _ _ _ L U) as [_ B].
  unfold Py.round, Qle. simpl. lia.
Qed.

Section RecordFacts.
Context `{External}.

Lemma instantaneous_fps_nonneg (el inst : Q) :
  instantaneous_fps el = Ok inst -> (0 <= inst)%Q.
Proof.
  intro I. destruct (instantaneous_fps_total el) as (inst' & I' & Pos & Neg).
  rewrite I in I'. inversion I'. subst inst'.
  destruct (Qlt_le_dec 0 el) as [G|L].
  - rewrite (Pos G). apply Qlt_le_weak.
    unfold Qdiv. rewrite Qmult_1_l. now apply Qinv_lt_0_compat.
  - rewrite (Neg L). apply Qle_refl.
Qed.

Lemma next_fps_ema_nonneg (ema inst : Q) :
  (0 <= inst)%Q -> (0 <= next_fps_ema ema inst)%Q.
Proof.
  intro I. unfold next_fps_ema. destruct (Qgtb ema 0) eqn:G; [|exact I].
  apply Qgtb_true in G. lra.
Qed.

Lemma process_frame_plausible (fr : Frame) (clk : Clock)
      (self self' : VisionDetector) (ev : FrameEvent) :
  0 <= frame_count self ->
  process_frame fr clk self = (Ok ev, self') ->
  plausible ev /\ 0 <= frame_count self'.
Proof.
  intros Fc E. apply process_frame_inv in E.
  destruct E as (results & mot & dets & inst & self1 & _ & C & _ & I & A).
  pose proof (compute_motion_inv _ _ _ _ C) as (_ & S1 & Mot).
  assert (M01 : (0 <= mot <= 1)%Q).
  { destruct Mot as [[_ ->]|(q & _ & _ & _ & ->)].
    - split; discriminate.
    - apply mean_abs_difference_unit. }
  subst self1. inversion A. simpl. unfold plausible. simpl.
  repeat split; try lia.
  - apply round_nonneg, M01.
  - apply round_at_most_one, M01.
  - apply round_nonneg, next_fps_ema_nonneg.
    now apply instantaneous_fps_nonneg with (el := elapsed clk).
Qed.

Lemma step_plausible (t : turn) (p : Process) :
  Forall plausible (frame_events (trace p)) /\ 0 <= frame_count (detector p) ->
  Forall plausible (frame_events (trace (step t p))) /\
  0 <= frame_count (detector (step t p)).
Proof.
  intros [Tr Fc]. unfold step. destruct (ended p); [now split|].
  destruct t as [|c].
  - destruct (stdin p) as [input|]; [|now split].
    pose proof (listener_turn_frame_count input (detector p)) as L.
    destruct (listener_turn input (detector p)) as [self' rest].
    simpl in *. split; [exact Tr|lia].
  - destruct (iteration c (detector p)) as [[self' effs] e] eqn:I.
    apply iteration_cases in I. simpl.
    rewrite frame_events_app, Forall_app.
    destruct I as [(how & _ & -> & F & _)|[(_ & _ & _ & -> & ->)|I]].
    + repeat split; [exact Tr|constructor|lia].
    + repeat split; [exact Tr|constructor|exact Fc].
    + destruct I as (fr & clk & ev & _ & _ & _ & P & ->).
      destruct (process_frame_plausible _ _ _ _ _ Fc P) as [Pl Fc'].
      repeat split; [exact Tr|simpl; now constructor|exact Fc'].
Qed.

End RecordFacts.

(** X7.  In every run from a new detector, whatever the threads do, each
    per-frame record written has a motion score between 0 and 1, a frame rate
    that is not negative and a frame number of at least 1. *)
Theorem records_are_plausible `{External} (url : string) (c : Q)
    (classes : option (list Z)) (size : Z) (input : list stdin_read)
    (sched : list turn) :
  Forall (fun ev => (0 <= motion ev <= 1)%Q /\ (0 <= fps ev)%Q /\
                    1 <= frame ev)
         (frame_events
            (trace (run_turns sched
                              (launch true input (init url c classes size))))).
Proof.
  assert (G : forall sched p,
             Forall plausible (frame_events (trace p)) /\
             0 <= frame_count (detector p) ->
             Forall plausible (frame_events (trace (run_turns sched p)))).
  { clear sched. intro sched. induction sched as [|t sched IH]; intros p I.
    - exact (proj1 I).
    - simpl. apply IH, step_plausible, I. }
  apply (G sched). simpl. split; [constructor|lia].
Qed.

(** ** Startup and shutdown *)

Section StopFacts.
Context `{External}.

Lemma step_listener_stopped (p : Process) :
  ended p = None -> running (detector p) = false ->
  ended (step listener p) = None /\
  running (detector (step listener p)) = false /\
  trace (step listener p) = trace p.
Proof.
  intros E R. unfold step. rewrite E.
  destruct (stdin p) as [input|]; [|auto].
  pose proof (listener_turn_running input (detector p)) as L.
  destruct (listener_turn input (detector p)) as [self' rest]. simpl in *.
  repeat split. destruct (running self'); [|reflexivity].
  specialize (L eq_refl). congruence.
Qed.

End StopFacts.

Section PassFacts.
Context `{External}.

(** The test and the body taken together are one [iteration]. *)
Lemma test_then_body_is_iteration (c : capture) (p : Process) :
  ended p = None ->
  process (advance (passes c)
             (advance tests {| process := p; in_body := false |}))
  = step (supervisor c) p.
Proof.
  intro E. unfold step, iteration. rewrite E.
  assert (T : advance tests {| process := p; in_body := false |}
              = if negb (running (detector p))
                then {| process :=
                          {| detector := detector p; stdin := stdin p;
                             ended := Some loop_done;
                             trace := trace p ++ finally |};
                        in_body := false |}
                else {| process := p; in_body := true |}).
  { unfold advance. simpl. now rewrite E. }
  rewrite T. destruct (running (detector p)) eqn:R; simpl.
  - unfold advance. simpl. rewrite E. unfold loop_body, retry.
    destruct c as [|fr clk|]; try reflexivity.
    destruct (process_frame fr clk (detector p)) as [[ev|e] self'];
      reflexivity.
  - reflexivity.
Qed.

Lemma race_ended (ms : list move) (r : Racing) (how : ending) :
  ended (process r) = Some how -> race ms r = r.
Proof.
  intro E. induction ms as [|m ms IH]; [reflexivity|].
  simpl. assert (A : advance m r = r) by (unfold advance; now rewrite E).
  rewrite A. exact IH.
Qed.

Lemma loop_body_stopped (c : capture) (self self' : VisionDetector)
      (effs : list effect) (e : option ending) :
  loop_body c self = (self', effs, e) ->
  running self' = running self /\
  (List.length (frame_events effs) <= 1)%nat.
Proof.
  unfold loop_body. destruct c as [|fr clk|].
  - intro K. inversion K. split; [reflexivity|]. simpl. lia.
  - destruct (process_frame fr clk self) as [[ev|x] s1] eqn:P;
      intro K; inversion K; subst.
    + apply process_frame_ok_fields in P. destruct P as (_ & _ & R & _).
      split; [exact R|]. simpl. lia.
    + apply process_frame_raise in P. destruct P as (_ & R & _).
      split; [exact R|]. simpl. lia.
  - intro K. inversion K. split; [reflexivity|]. simpl. lia.
Qed.

Lemma race_after_stop (ms : list move) (r : Racing) :
  ended (process r) = None -> running (detector (process r)) = false ->
  exists late,
    frame_events (trace (process (race ms r)))
    = frame_events (trace (process r)) ++ late /\
    (List.length late <= if in_body r then 1 else 0)%nat.
Proof.
  revert r. induction ms as [|m ms IH]; intros r E R.
  - exists []. split; [simpl; now rewrite app_nil_r|].
    simpl. destruct (in_body r); lia.
  - change (race (m :: ms) r) with (race ms (advance m r)).
    unfold advance. rewrite E. destruct m as [| |c].
    + destruct (step_listener_stopped (process r) E R) as (E1 & R1 & T1).
      destruct (IH {| process := step listener (process r);
                      in_body := in_body r |} E1 R1) as (late & Ev & Len).
      exists late. simpl in Ev, Len. rewrite T1 in Ev. now split.
    + destruct (in_body r) eqn:B.
      * destruct (IH r E R) as (late & Ev & Len). rewrite B in Len.
        now exists late.
      * rewrite R. simpl negb. cbv iota.
        erewrite race_ended by reflexivity. simpl.
        exists []. rewrite frame_events_app. simpl. split; [reflexivity|lia].
    + destruct (in_body r) eqn:B.
      * destruct (loop_body c (detector (process r))) as [[self' effs] e]
          eqn:L.
        destruct (loop_body_stopped _ _ _ _ _ L) as [R' One].
        destruct e as [how|].
        -- erewrite race_ended by reflexivity. simpl.
           exists (frame_events effs).
           rewrite frame_events_app. split; [reflexivity|exact One].
        -- destruct (IH {| process :=
                             {| detector := self'; stdin := stdin (process r);
                                ended := None;
                                trace := trace (process r) ++ effs |};
                           in_body := false |} eq_refl (eq_trans R' R))
             as (late & Ev & Len).
           simpl in Ev, Len.
           exists (frame_events effs ++ late).
           rewrite Ev, frame_events_app, <- app_assoc.
           split; [reflexivity|]. rewrite length_app. lia.
      * destruct (IH r E R) as (late & Ev & Len). rewrite B in Len.
        exists late. split; [exact Ev|]. lia.
Qed.

End PassFacts.

(** X10.  With the loop test and the loop body as separate turns, so that
    the listener can clear [running] between them: once [running] is false,
    whatever the threads do next, at most one more per-frame record is
    written, the one of a pass already past the test, and none at all when
    the main thread is at the test. *)
Theorem at_most_one_record_after_stop `{External} (ms : list move)
    (r : Racing) :
  ended (process r) = None -> running (detector (process r)) = false ->
  exists late,
    frame_events (trace (process (race ms r)))
    = frame_events (trace (process r)) ++ late /\
    (List.length late <= 1)%nat /\
    (in_body r = false -> late = []).
Proof.
  intros E R. destruct (race_after_stop ms r E R) as (late & Ev & Len).
  exists late. split; [exact Ev|]. split.
  - destruct (in_body r); lia.
  - intro B. rewrite B in Len. destruct late; [reflexivity|simpl in Len; lia].
Qed.

Lemma at_most_one_record_after_stop_witness :
  exists late,
    frame_events
      (trace (process (race [passes (got_frame black tick); tests;
                             passes (got_frame dim tick)]
                            stopped_in_body)))
    = frame_events (trace (process stopped_in_body)) ++ late /\
    (List.length late <= 1)%nat /\
    (in_body stopped_in_body = false -> late = []).
Proof.
  exact (at_most_one_record_after_stop (H := collaborators)
           [passes (got_frame black tick); tests;
            passes (got_frame dim tick)]
           stopped_in_body eq_refl eq_refl).
Defined.

Example one_record_after_stop :
  running (detector (process stopped_in_body)) = false /\
  frame_numbers (trace (process stopped_in_body)) = [] /\
  frame_numbers
    (trace (process (race [passes (got_frame black tick); tests;
                           passes (got_frame dim tick)]
                          stopped_in_body))) = [1] /\
  ended (process (race [passes (got_frame black tick); tests;
                        passes (got_frame dim tick)]
                       stopped_in_body)) = Some loop_done.
Proof. repeat split. Qed.

(** ** Detections *)

Lemma int_trunc_neg (x : Q) : (x <= 0)%Q -> int_trunc x = Qceiling x.
Proof.
  intro N. unfold Qceiling. rewrite <- int_trunc_nonneg by lra.
  destruct x as [n d]. unfold int_trunc. simpl.
  rewrite Z.quot_opp_l by lia. lia.
Qed.

Lemma int_trunc_monotone (x y : Q) :
  (x <= y)%Q -> int_trunc x <= int_trunc y.
Proof.
  intro L.
  destruct (Qlt_le_dec x 0) as [Xn|Xp]; destruct (Qlt_le_dec y 0) as [Yn|Yp].
  - rewrite !int_trunc_neg by lra. now apply Qceiling_resp_le.
  - rewrite int_trunc_neg by lra. rewrite (int_trunc_nonneg y Yp).
    assert (A : Qceiling x <= 0).
    { change 0 with (Qceiling 0). apply Qceiling_resp_le. lra. }
    assert (B : 0 <= Qfloor y).
    { change 0 with (Qfloor 0). now apply Qfloor_resp_le. }
    lia.
  - lra.
  - rewrite !int_trunc_nonneg by lra. now apply Qfloor_resp_le.
Qed.

(** X11.  Truncating the corners keeps a box well formed: for an engine
    box with [x1 <= x2] and [y1 <= y2] the integer corners of the record
    satisfy the same inequalities. *)
Theorem bbox_stays_ordered (nm : list (Z * string)) (box : Box)
    (det : Detection) (x1 y1 x2 y2 : Q) :
  detection_of nm box = Ok det -> b_xyxy box = (x1, y1, x2, y2) ->
  (x1 <= x2)%Q -> (y1 <= y2)%Q ->
  exists a b c d, d_bbox det = [a; b; c; d] /\ a <= c /\ b <= d.
Proof.
  intros D B Lx Ly. apply detection_of_inv in D.
  destruct D as (_ & _ & A). unfold bbox_area_of in A. rewrite B in A.
  destruct A as [-> _].
  exists (int_trunc x1), (int_trunc y1), (int_trunc x2), (int_trunc y2).
  split; [reflexivity|]. split; now apply int_trunc_monotone.
Qed.

Lemma bbox_stays_ordered_witness :
  exists a b c d,
    d_bbox {| d_class := "person"; d_conf := 877 # 1000;
              d_bbox := [120; 45; 340; 360]; d_area := 69536 |}
    = [a; b; c; d] /\ a <= c /\ b <= d.
Proof.
  apply (bbox_stays_ordered [(0, "person"%string)] person _
           (1205 # 10) 45 (3409 # 10) (3605 # 10));
    [reflexivity|reflexivity|discriminate|discriminate].
Defined.

Lemma getitem_raises_key_error (d : list (Z * string)) (k : Z) (e : exn) :
  getitem d k = Raise e -> e = KeyError.
Proof.
  induction d as [|[k' v] d IH]; simpl.
  - intro K. now inversion K.
  - destruct (k' =? k); [discriminate|exact IH].
Qed.

Lemma detection_of_raises (nm : list (Z * string)) (box : Box) (e : exn) :
  detection_of nm box = Raise e ->
  e = KeyError /\ getitem nm (int_trunc (b_cls box)) = Raise KeyError.
Proof.
  unfold detection_of.
  destruct (getitem nm _) as [name|e'] eqn:G.
  - destruct (b_xyxy box) as [[[x1 y1] x2] y2]. discriminate.
  - intro K. inversion K. subst e'.
    pose proof (getitem_raises_key_error _ _ _ G). subst e. auto.
Qed.

Lemma mapM_detection_missing (nm : list (Z * string)) (l : list Box) :
  Exists (fun box => getitem nm (int_trunc (b_cls box)) = Raise KeyError) l ->
  mapM (detection_of nm) l = Raise KeyError.
Proof.
  induction 1 as [box l G|box l _ IH]; simpl.
  - unfold detection_of at 1. now rewrite G.
  - destruct (detection_of nm box) as [det|e] eqn:D.
    + now rewrite IH.
    + apply detection_of_raises in D. now destruct D as [-> _].
Qed.

(** X12.  A box whose class id is not a key of the engine's [names] makes
    the whole frame fail with [KeyError]: no record is written for it, not
    even for the boxes before it, the counter is not advanced although the
    stored grey image already is, and the loop ends through the [finally]
    block. *)
Theorem missing_class_name_is_fatal `{External} (fr : Frame) (clk : Clock)
    (self self1 : VisionDetector) (results : Results) (mot : Q) :
  predict fr (conf self) (imgsz self) (target_classes self) = Ok results ->
  compute_motion fr self = (Ok mot, self1) ->
  Exists (fun box =>
            getitem (names results) (int_trunc (b_cls box)) = Raise KeyError)
         (boxes results) ->
  process_frame fr clk self = (Raise KeyError, self1) /\
  frame_count self1 = frame_count self /\
  prev_gray self1 = Some (gray_of fr) /\
  (running self = true ->
   iteration (got_frame fr clk) self
   = (self1, [cap_release; emit stopped], Some (uncaught KeyError))).
Proof.
  intros P C X.
  assert (E : process_frame fr clk self = (Raise KeyError, self1)).
  { rewrite process_frame_unfold, P, C.
    now rewrite (mapM_detection_missing _ _ X). }
  apply compute_motion_inv in C. destruct C as (_ & -> & _).
  repeat split; try exact E.
  intro R. unfold iteration. now rewrite R, E.
Qed.

Lemma missing_class_name_is_fatal_witness :
  process_frame (H := Scenes.collaborators) dim tick fresh
  = (Raise KeyError,
     set_prev_gray (Some (gray_of (H := Scenes.collaborators) dim)) fresh) /\
  frame_count (set_prev_gray (Some (gray_of (H := Scenes.collaborators) dim))
                             fresh) = frame_count fresh /\
  prev_gray (set_prev_gray (Some (gray_of (H := Scenes.collaborators) dim))
                           fresh)
  = Some (gray_of (H := Scenes.collaborators) dim) /\
  (running fresh = true ->
   iteration (H := Scenes.collaborators)
             (got_frame (H := Scenes.collaborators) dim tick) fresh
   = (set_prev_gray (Some (gray_of (H := Scenes.collaborators) dim)) fresh,
      [cap_release; emit stopped], Some (uncaught KeyError))).
Proof.
  apply (missing_class_name_is_fatal (H := Scenes.collaborators) dim tick
           fresh _
           {| boxes := [person; Scenes.stranger];
              names := [(0, "person"%string)] |} 0%Q).
  - reflexivity.
  - reflexivity.
  - apply Exists_cons_tl, Exists_cons_hd. reflexivity.
Defined.

(** X13.  A frame in which the engine finds nothing is still a processed
    frame: its record is written with an empty list of detections and the
    next frame number. *)
Theorem empty_result_still_recorded `{External} (fr : Frame) (clk : Clock)
    (self self1 : VisionDetector) (results : Results) (mot : Q) :
  predict fr (conf self) (imgsz self) (target_classes self) = Ok results ->
  boxes results = [] ->
  compute_motion fr self = (Ok mot, self1) ->
  running self = true ->
  exists ev self',
    iteration (got_frame fr clk) self
    = (self', [emit (frame_line ev)], None) /\
    detections ev = [] /\
    frame ev = frame_count self + 1 /\
    frame_count self' = frame_count self + 1.
Proof.
  intros P B C R.
  assert (D : mapM (detection_of (names results)) (boxes results) = Ok [])
    by now rewrite B.
  destruct (process_frame_returns fr clk self self1 results mot [] P C D)
    as (inst & _ & E).
  eexists. eexists. split.
  - unfold iteration. rewrite R, E. reflexivity.
  - apply compute_motion_inv in C. destruct C as (_ & -> & _).
    simpl. auto.
Qed.

Lemma empty_result_still_recorded_witness :
  exists ev self',
    iteration (H := Scenes.collaborators)
              (got_frame (H := Scenes.collaborators) black tick) fresh
    = (self', [emit (frame_line ev)], None) /\
    detections ev = [] /\
    frame ev = frame_count fresh + 1 /\
    frame_count self' = frame_count fresh + 1.
Proof.
  apply (empty_result_still_recorded (H := Scenes.collaborators) black tick
           fresh
           (set_prev_gray (Some (gray_of (H := Scenes.collaborators) black))
                          fresh)
           {| boxes := []; names := [(0, "person"%string)] |} 0%Q);
    reflexivity.
Defined.

(** ** Commands and startup arguments *)

(** X14.  The class list of [--classes] and of a [CLASSES:] command are
    read the same way: a non-empty argument [main] accepts gives, sent as a
    command without surrounding blanks, the same filter; one [main] rejects
    with [ValueError] is, as a command, passed over. *)
Theorem startup_filter_matches_command `{External} (s : string)
    (self : VisionDetector) :
  strip ("CLASSES:" ++ s) = ("CLASSES:" ++ s)%string ->
  (forall l, main_classes (Some s) = Ok (Some l) ->
             on_line ("CLASSES:" ++ s) self
             = (set_target_classes (Some l) self, Continue)) /\
  (main_classes (Some s) = Raise ValueError ->
   on_line ("CLASSES:" ++ s) self = (self, Continue)).
Proof.
  intro S. unfold on_line. rewrite S.
  change (String.eqb ("CLASSES:" ++ s) "STOP") with false.
  change (startswith ("CLASSES:" ++ s) "CONF:") with false.
  assert (P : startswith ("CLASSES:" ++ s) "CLASSES:" = true).
  { unfold startswith. simpl.
    repeat (destruct (ascii_dec _ _) as [_|N]; [|now elim N]).
    now destruct s. }
  rewrite P. change (slice_from 8 ("CLASSES:" ++ s)) with s.
  unfold main_classes. split.
  - intros l M. destruct s as [|c s]; [discriminate|].
    destruct (all_some int_of_str (split "," (String c s))) as [l'|];
      [|discriminate].
    now inversion M.
  - intro M. destruct s as [|c s]; [discriminate|].
    destruct (all_some int_of_str (split "," (String c s))) as [l'|];
      [discriminate|reflexivity].
Qed.

Lemma startup_filter_matches_command_witness :
  (forall l, main_classes (Some "0,2"%string) = Ok (Some l) ->
             on_line ("CLASSES:" ++ "0,2") fresh
             = (set_target_classes (Some l) fresh, Continue)) /\
  (main_classes (Some "0,2"%string) = Raise ValueError ->
   on_line ("CLASSES:" ++ "0,2") fresh = (fresh, Continue)).
Proof.
  exact (startup_filter_matches_command (H := collaborators) "0,2" fresh
           eq_refl).
Defined.

(** X15.  A well-formed command reaches the engine with the next frame:
    after a [CONF:] line whose payload [float] reads as [v], the detections
    of the next record are those the engine returns for threshold [v]; after
    a [CLASSES:] line whose tokens [int] reads as [l], they are those it
    returns for the filter [l]. *)
Theorem command_applies_to_next_frame `{External} (line : string)
    (self self' : VisionDetector) (fr : Frame) (clk : Clock)
    (ev : FrameEvent) :
  process_frame fr clk (fst (on_line line self)) = (Ok ev, self') ->
  (forall v,
      startswith (strip line) "CONF:" = true ->
      float_of_str (slice_from 5 (strip line)) = Some v ->
      exists results,
        predict fr v (imgsz self) (target_classes self) = Ok results /\
        mapM (detection_of (names results)) (boxes results)
        = Ok (detections ev)) /\
  (forall l,
      startswith (strip line) "CLASSES:" = true ->
      all_some int_of_str (split "," (slice_from 8 (strip line))) = Some l ->
      exists results,
        predict fr (conf self) (imgsz self) (Some l) = Ok results /\
        mapM (detection_of (names results)) (boxes results)
        = Ok (detections ev)).
Proof.
  intro E. apply process_frame_inv in E.
  destruct E as (results & mot & dets & inst & self1 & P & _ & D & _ & A).
  assert (Dv : detections ev = dets) by now inversion A.
  rewrite Dv. split.
  - intros v Pre V. exists results. split; [|exact D].
    unfold on_line in P.
    rewrite (conf_is_not_stop _ Pre), Pre, V in P. exact P.
  - intros l Pre V. exists results. split; [|exact D].
    unfold on_line in P.
    rewrite (classes_is_not_stop _ Pre), (classes_is_not_conf _ Pre), Pre, V
      in P.
    exact P.
Qed.

Lemma command_applies_to_next_frame_witness :
  exists results,
    predict black (0 + (5 # 10))%Q (imgsz fresh) (target_classes fresh)
    = Ok results /\
    mapM (detection_of (names results)) (boxes results)
    = Ok [{| d_class := "person"; d_conf := 877 # 1000;
             d_bbox := [120; 45; 340; 360]; d_area := 69536 |}].
Proof.
  destruct (process_frame (H := collaborators) black tick
              (fst (on_line "CONF:0.5" fresh))) as [r s'] eqn:P.
  destruct r as [ev|e]; [|vm_compute in P; discriminate].
  destruct (command_applies_to_next_frame (H := collaborators) "CONF:0.5"
              fresh s' black tick ev P) as [Conf _].
  destruct (Conf (0 + (5 # 10))%Q eq_refl eq_refl) as (results & Pr & D).
  exists results. split; [exact Pr|].
  rewrite D. vm_compute in P. inversion P. reflexivity.
Defined.

(** * The serial relay *)

Lemma rstrip_cons_nonspace (c : ascii) (s : string) :
  isspace c = false -> rstrip (String c s) = String c (rstrip s).
Proof.
  intro N. simpl. rewrite N. now destruct (rstrip s).
Qed.

Lemma rstrip_idempotent (s : string) : rstrip (rstrip s) = rstrip s.
Proof.
  induction s as [|c s IH]; [reflexivity|]. simpl.
  destruct (rstrip s) as [|d r] eqn:R.
  - destruct (isspace c) eqn:W; [reflexivity|]. simpl. now rewrite W.
  - change (rstrip (String c (String d r)))
      with (match rstrip (String d r) with
            | EmptyString =>
                if isspace c then EmptyString else String c EmptyString
            | String x y => String c (String x y)
            end).
    now rewrite IH.
Qed.

Lemma lstrip_starts_clean (s : string) : Serial.starts_clean (lstrip s) = true.
Proof.
  induction s as [|c s IH]; [reflexivity|]. simpl.
  destruct (isspace c) eqn:W; [exact IH|]. simpl. now rewrite W.
Qed.

Lemma lstrip_of_clean (s : string) : Serial.starts_clean s = true -> lstrip s = s.
Proof.
  destruct s as [|c s]; [reflexivity|]. simpl.
  now destruct (isspace c).
Qed.

Lemma rstrip_starts_clean (s : string) :
  Serial.starts_clean s = true -> Serial.starts_clean (rstrip s) = true.
Proof.
  destruct s as [|c s]; [reflexivity|]. simpl. intro N.
  apply negb_true_iff in N. rewrite N.
  destruct (rstrip s); simpl; now rewrite N.
Qed.

Lemma strip_idempotent (s : string) : strip (strip s) = strip s.
Proof.
  unfold strip.
  rewrite (lstrip_of_clean (rstrip (lstrip s))).
  - apply rstrip_idempotent.
  - apply rstrip_starts_clean, lstrip_starts_clean.
Qed.

Lemma rstrip_newline (s : string) :
  rstrip (s ++ Serial.newline) = rstrip s.
Proof.
  induction s as [|c s IH]; [reflexivity|].
  cbn [append rstrip]. fold rstrip. now rewrite IH.
Qed.

Lemma all_chars_app (p : ascii -> bool) (a b : string) :
  Serial.all_chars p (a ++ b)
  = Serial.all_chars p a && Serial.all_chars p b.
Proof.
  induction a as [|c a IH]; [reflexivity|]. simpl.
  now rewrite IH, andb_assoc.
Qed.

Lemma all_chars_weaken (p q : ascii -> bool) (s : string) :
  (forall c, p c = true -> q c = true) ->
  Serial.all_chars p s = true -> Serial.all_chars q s = true.
Proof.
  intro W. induction s as [|c s IH]; [reflexivity|]. simpl.
  intro A. apply andb_true_iff in A. destruct A as [Pc Ps].
  now rewrite (W c Pc), IH.
Qed.

Lemma printable_is_ascii (c : ascii) :
  Serial.printable c = true -> Serial.is_ascii c = true.
Proof.
  unfold Serial.printable, Serial.is_ascii. intro P.
  apply andb_true_iff in P. destruct P as [_ P].
  apply Nat.leb_le in P. apply Nat.ltb_lt. lia.
Qed.

Lemma relay_line_inv (line out : string) :
  Serial.relay_line line = Some out ->
  out = (strip line ++ Serial.newline)%string /\ Serial.clean (strip line) /\
  Serial.all_chars Serial.is_ascii line = true.
Proof.
  unfold Serial.relay_line, Serial.decode_ascii.
  destruct line as [|c l]; [discriminate|].
  destruct (Serial.all_chars Serial.is_ascii (String c l)) eqn:A;
    [|discriminate].
  destruct (strip (String c l)) as [|d t] eqn:S; [discriminate|].
  destruct (Serial.all_chars Serial.printable (String d t)) eqn:P;
    [|discriminate].
  intro K. inversion K. repeat split; try assumption.
  - discriminate.
  - rewrite <- S. apply strip_idempotent.
Qed.

Lemma relay_line_of_clean (text : string) :
  Serial.clean text ->
  Serial.relay_line (text ++ Serial.newline)
  = Some (text ++ Serial.newline)%string.
Proof.
  intros (N & P & S).
  assert (St : strip (text ++ Serial.newline) = text).
  { unfold strip in *.
    assert (C : Serial.starts_clean text = true).
    { rewrite <- S. apply rstrip_starts_clean, lstrip_starts_clean. }
    rewrite lstrip_of_clean.
    - rewrite rstrip_newline. rewrite (lstrip_of_clean text C) in S. exact S.
    - destruct text; [now elim N|exact C]. }
  unfold Serial.relay_line, Serial.decode_ascii.
  destruct (text ++ Serial.newline)%string as [|c l] eqn:E.
  { destruct text; discriminate. }
  rewrite <- E in *. clear E.
  assert (A : Serial.all_chars Serial.is_ascii (text ++ Serial.newline)
              = true).
  { rewrite all_chars_app.
    rewrite (all_chars_weaken _ _ text printable_is_ascii P). reflexivity. }
  rewrite A, St.
  destruct text as [|d t]; [now elim N|]. now rewrite P.
Qed.

Lemma stdout_lines_app (a b : list Serial.effect) :
  Serial.stdout_lines (a ++ b)
  = Serial.stdout_lines a ++ Serial.stdout_lines b.
Proof.
  induction a as [|e a IH]; [reflexivity|].
  destruct e; simpl; now rewrite ?IH.
Qed.

Lemma reading_lines_clean (reads : list Serial.read) :
  Forall (fun out => exists text,
              out = (text ++ Serial.newline)%string /\ Serial.clean text)
         (Serial.stdout_lines (fst (Serial.reading reads))).
Proof.
  induction reads as [|r reads IH]; [constructor|].
  destruct r as [line| |]; simpl; try constructor.
  destruct (Serial.reading reads) as [effs status]. simpl in *.
  destruct (Serial.relay_line line) as [out|] eqn:R; [|exact IH].
  simpl. constructor; [|exact IH].
  apply relay_line_inv in R. destruct R as (-> & C & _).
  now exists (strip line).
Qed.

(** X16.  Whatever the arguments and whatever arrives on the port, every
    line the relay writes to stdout is a non-empty text of printable ASCII
    characters (codes 32 to 126) with no blank at either end, followed by one
    newline; the diagnostics never go to stdout. *)
Theorem relay_writes_only_clean_lines (int_of_str : string -> option Z)
    (argv : list string) (opens : bool) (reads : list Serial.read) :
  Forall (fun out => exists text,
              out = (text ++ Serial.newline)%string /\ Serial.clean text)
         (Serial.stdout_lines
            (fst (Serial.main int_of_str argv opens reads))).
Proof.
  unfold Serial.main.
  destruct argv as [|prog [|device [|baud_arg rest]]]; try constructor.
  destruct (int_of_str baud_arg) as [baud|]; [|constructor].
  destruct opens; [|constructor].
  pose proof (reading_lines_clean reads) as C.
  destruct (Serial.reading reads) as [effs status]. simpl in *.
  rewrite stdout_lines_app.
  destruct status; simpl; rewrite app_nil_r; exact C.
Qed.

(** X17.  The relay is idempotent: a line it has written, read back from a
    port, is written again unchanged. *)
Theorem relay_line_idempotent (line out : string) :
  Serial.relay_line line = Some out -> Serial.relay_line out = Some out.
Proof.
  intro R. apply relay_line_inv in R. destruct R as (-> & C & _).
  now apply relay_line_of_clean.
Qed.

Lemma relay_line_idempotent_witness :
  Serial.relay_line (String "013" (String "010" "  T=21.5 C  "))
  = Some (String.append "T=21.5 C" Serial.newline) /\
  Serial.relay_line (String.append "T=21.5 C" Serial.newline)
  = Some (String.append "T=21.5 C" Serial.newline).
Proof.
  split; [reflexivity|].
  apply (relay_line_idempotent
           (String "013" (String "010" "  T=21.5 C  "))).
  reflexivity.
Defined.

Lemma all_chars_in (p : ascii -> bool) (s : string) (c : ascii) :
  Serial.all_chars p s = true -> In c (list_ascii_of_string s) -> p c = true.
Proof.
  induction s as [|a s IH]; simpl; [intros _ []|].
  intros A [->|I]; apply andb_true_iff in A; destruct A as [Pa Ps]; auto.
Qed.

Lemma lstrip_keeps (s : string) (c : ascii) :
  isspace c = false -> In c (list_ascii_of_string s) ->
  In c (list_ascii_of_string (lstrip s)).
Proof.
  intro N. induction s as [|a s IH]; simpl; [auto|].
  intros [->|I].
  - rewrite N. now left.
  - destruct (isspace a); [now apply IH|now right].
Qed.

Lemma rstrip_keeps (s : string) (c : ascii) :
  isspace c = false -> In c (list_ascii_of_string s) ->
  In c (list_ascii_of_string (rstrip s)).
Proof.
  intro N. induction s as [|a s IH]; [auto|].
  intros [->|I].
  - rewrite (rstrip_cons_nonspace c s N). now left.
  - specialize (IH I). simpl.
    destruct (rstrip s) as [|d r]; [destruct IH|]. now right.
Qed.

(** X18.  One unusable byte spoils the whole line: if what [readline]
    returned holds a byte of 128 or more, or a character below 128 that is
    neither printable nor white space (NUL, ESC, DEL, ...), nothing of the
    line is written. *)
Theorem relay_drops_garbage (line : string) (c : ascii) :
  In c (list_ascii_of_string line) ->
  Serial.is_ascii c = false \/
  (Serial.printable c = false /\ isspace c = false) ->
  Serial.relay_line line = None.
Proof.
  intros I Bad. unfold Serial.relay_line, Serial.decode_ascii.
  destruct line as [|a l]; [reflexivity|].
  destruct (Serial.all_chars Serial.is_ascii (String a l)) eqn:A;
    [|reflexivity].
  pose proof (all_chars_in _ _ _ A I) as Ac.
  destruct Bad as [B|[P W]]; [congruence|].
  assert (K : In c (list_ascii_of_string (strip (String a l)))).
  { unfold strip. now apply rstrip_keeps, lstrip_keeps. }
  destruct (strip (String a l)) as [|d t]; [destruct K|].
  destruct (Serial.all_chars Serial.printable (String d t)) eqn:Pr;
    [|reflexivity].
  pose proof (all_chars_in _ _ _ Pr K). congruence.
Qed.

Lemma relay_drops_garbage_witness :
  Serial.relay_line (String "255" "T=21.5 C") = None /\
  Serial.relay_line (String "T" (String "000" "=21.5")) = None.
Proof.
  split.
  - apply (relay_drops_garbage _ "255"%char); [now left|now left].
  - apply (relay_drops_garbage _ "000"%char); [right; now left|].
    right. split; reflexivity.
Defined.

Lemma reading_never_closes (reads : list Serial.read) :
  ~ In Serial.close (fst (Serial.reading reads)).
Proof.
  induction reads as [|r reads IH]; [intros []|].
  destruct r as [line| |]; simpl.
  - destruct (Serial.reading reads) as [effs status]. simpl in *.
    destruct (Serial.relay_line line); [|exact IH].
    intros [K|K]; [discriminate|now apply IH].
  - intros [K|[]]. discriminate.
  - intros [].
Qed.

(** X19.  The port is closed exactly when it was opened and the relay has
    ended, and then closing is the last thing done; a relay that failed before
    or while opening the port never closes one. *)
Theorem relay_closes_what_it_opened (int_of_str : string -> option Z)
    (argv : list string) (opens : bool) (reads : list Serial.read) :
  (In Serial.close (fst (Serial.main int_of_str argv opens reads)) <->
   opens = true /\
   (exists device baud,
       In (Serial.Serial_open device baud)
          (fst (Serial.main int_of_str argv opens reads))) /\
   snd (Serial.main int_of_str argv opens reads) <> None) /\
  (In Serial.close (fst (Serial.main int_of_str argv opens reads)) ->
   exists before,
     fst (Serial.main int_of_str argv opens reads)
     = before ++ [Serial.close] /\ ~ In Serial.close before).
Proof.
  unfold Serial.main.
  destruct argv as [|prog [|device [|baud_arg rest]]];
    try (split; [split; [intros [K|[]]; discriminate
                        |intros (_ & (d & b & [K|[]]) & _); discriminate]
                |intros [K|[]]; discriminate]).
  destruct (int_of_str baud_arg) as [baud|].
  2:{ split; [split; [intros []|intros (_ & (d & b & []) & _)]|intros []]. }
  destruct opens.
  2:{ split; [split; [intros [K|[K|[]]]; discriminate
                     |intros (K & _); discriminate]
             |intros [K|[K|[]]]; discriminate]. }
  pose proof (reading_never_closes reads) as NC.
  destruct (Serial.reading reads) as [effs status]. simpl fst in *.
  simpl snd.
  destruct status as [code|].
  - split.
    + split.
      * intros _. split; [reflexivity|]. split; [|discriminate].
        exists device, baud. now left.
      * intros _. simpl. do 4 right. apply in_or_app. right. now left.
    + intros _.
      exists ([Serial.Serial_open device baud; Serial.set_dtr false;
               Serial.sleep_half; Serial.reset_input_buffer] ++ effs).
      split; [reflexivity|].
      intro K. apply in_app_or in K. destruct K as [K|K]; [|now apply NC].
      simpl in K. decompose [or] K; discriminate || contradiction.
  - assert (No : ~ In Serial.close
                     ([Serial.Serial_open device baud; Serial.set_dtr false;
                       Serial.sleep_half; Serial.reset_input_buffer]
                      ++ effs ++ [])).
    { rewrite app_nil_r. intro K. apply in_app_or in K.
      destruct K as [K|K]; [|now apply NC].
      simpl in K. decompose [or] K; discriminate || contradiction. }
    split; [split|]; [intro K; now elim No| |intro K; now elim No].
    intros (_ & _ & K). now elim K.
Qed.

Lemma relay_closes_what_it_opened_witness :
  exists before,
    fst (Serial.main parse_int
           ["serial_reader.py"; "/dev/ttyUSB0"; "115200"]%string true
           [Serial.received "ok"; Serial.port_failure])
    = before ++ [Serial.close] /\ ~ In Serial.close before.
Proof.
  apply (relay_closes_what_it_opened parse_int
           ["serial_reader.py"; "/dev/ttyUSB0"; "115200"]%string true
           [Serial.received "ok"; Serial.port_failure]).
  simpl. do 6 right. now left.
Defined.

(** * Further properties of a run *)

Section DropFacts.
Context `{External}.

Lemma drops_in_context_app (seen : nat) (a b : list effect) :
  drops_in_context seen (a ++ b)
  = drops_in_context seen a
    ++ drops_in_context (seen + List.length (frame_numbers a)) b.
Proof.
  revert seen. induction a as [|e a IH]; intro seen; simpl.
  - now rewrite Nat.add_0_r.
  - destruct e as [[ev|n|u|]| | | |]; simpl; rewrite IH; try reflexivity.
    now rewrite Nat.add_succ_r.
Qed.

Lemma step_drops (t : turn) (p : Process) (k : nat) :
  frame_count (detector p) = Z.of_nat k ->
  List.length (frame_numbers (trace p)) = k ->
  Forall (fun nk => fst nk = Z.of_nat (snd nk))
         (drops_in_context 0 (trace p)) ->
  exists k',
    frame_count (detector (step t p)) = Z.of_nat k' /\
    List.length (frame_numbers (trace (step t p))) = k' /\
    Forall (fun nk => fst nk = Z.of_nat (snd nk))
           (drops_in_context 0 (trace (step t p))).
Proof.
  intros Fc Len Ok0. unfold step. destruct (ended p); [now exists k|].
  destruct t as [|c].
  - destruct (stdin p) as [input|]; [|now exists k].
    pose proof (listener_turn_frame_count input (detector p)) as L.
    destruct (listener_turn input (detector p)) as [self' rest].
    exists k. simpl in *. repeat split; congruence.
  - destruct (iteration c (detector p)) as [[self' effs] e] eqn:I.
    apply iteration_cases in I. simpl.
    destruct I as [(how & _ & -> & F & _)|[(_ & _ & _ & -> & ->)|I]].
    + exists k.
      rewrite drops_in_context_app, frame_numbers_app, length_app, Forall_app.
      simpl. repeat split; try lia; try assumption. constructor.
    + exists k.
      rewrite drops_in_context_app, frame_numbers_app, length_app, Forall_app.
      simpl. repeat split; try lia; try assumption.
      constructor; [|constructor]. simpl. rewrite Len. exact Fc.
    + destruct I as (fr & clk & ev & _ & _ & _ & P & ->).
      apply process_frame_ok_fields in P. destruct P as (_ & Fs & _).
      exists (S k).
      rewrite drops_in_context_app, frame_numbers_app, length_app, Forall_app.
      simpl. repeat split; try lia; try assumption.
      constructor.
Qed.

End DropFacts.

(** X21.  A [frame_drop] diagnostic reports how far the stream got: in
    every run from a new detector, the number it carries is the number of
    per-frame records written before it. *)
Theorem drop_reports_frames_so_far `{External} (url : string) (c : Q)
    (classes : option (list Z)) (size : Z) (input : list stdin_read)
    (sched : list turn) :
  Forall (fun nk => fst nk = Z.of_nat (snd nk))
         (drops_in_context 0
            (trace (run_turns sched
                              (launch true input (init url c classes size))))).
Proof.
  assert (G : forall sched p k,
             frame_count (detector p) = Z.of_nat k ->
             List.length (frame_numbers (trace p)) = k ->
             Forall (fun nk => fst nk = Z.of_nat (snd nk))
                    (drops_in_context 0 (trace p)) ->
             Forall (fun nk => fst nk = Z.of_nat (snd nk))
                    (drops_in_context 0 (trace (run_turns sched p)))).
  { clear sched. intro sched.
    induction sched as [|t sched IH]; intros p k Fc Len Ok0; [exact Ok0|].
    simpl. destruct (step_drops t p k Fc Len Ok0) as (k' & Fc' & Len' & Ok').
    now apply (IH _ k'). }
  apply (G sched _ O); [reflexivity|reflexivity|constructor].
Qed.

Example drops_of_recovered_session :
  drops_in_context 0 (trace recovered) = [(3, 3%nat)].
Proof. reflexivity. Qed.

(** X22.  Timestamps follow the wall clock: of two records, the one built
    at the later clock reading (or the same) does not carry the smaller
    timestamp, and a record's timestamp is the clock reading in whole
    milliseconds. *)
Theorem timestamps_follow_wall_clock `{External} (fr1 fr2 : Frame)
    (clk1 clk2 : Clock) (s1 s1' s2 s2' : VisionDetector)
    (ev1 ev2 : FrameEvent) :
  process_frame fr1 clk1 s1 = (Ok ev1, s1') ->
  process_frame fr2 clk2 s2 = (Ok ev2, s2') ->
  (wall clk1 <= wall clk2)%Q ->
  ts ev1 <= ts ev2 /\
  ((0 <= wall clk1)%Q ->
   (inject_Z (ts ev1) <= wall clk1 * 1000 < inject_Z (ts ev1) + 1)%Q).
Proof.
  intros E1 E2 L.
  apply process_frame_inv in E1.
  destruct E1 as (r1 & m1 & d1 & i1 & t1 & _ & _ & _ & _ & A1).
  apply process_frame_inv in E2.
  destruct E2 as (r2 & m2 & d2 & i2 & t2 & _ & _ & _ & _ & A2).
  inversion A1. inversion A2. simpl. split.
  - apply int_trunc_monotone. lra.
  - intro P. rewrite int_trunc_nonneg by lra. split.
    + apply Qfloor_le.
    + pose proof (Qlt_floor (wall clk1 * 1000)) as Hi.
      rewrite inject_Z_plus in Hi. exact Hi.
Qed.

Lemma timestamps_follow_wall_clock_witness :
  exists ev1 s1 ev2 s2,
    process_frame black tick fresh = (Ok ev1, s1) /\
    process_frame dim {| elapsed := 1 # 20; wall := 1707840000200 # 1000 |} s1
    = (Ok ev2, s2) /\
    ts ev1 <= ts ev2 /\ ts ev1 = 1707840000123.
Proof.
  destruct (process_frame (H := collaborators) black tick fresh)
    as [r1 s1] eqn:P1.
  destruct r1 as [ev1|e]; [|vm_compute in P1; discriminate].
  destruct (process_frame (H := collaborators) dim
              {| elapsed := 1 # 20; wall := 1707840000200 # 1000 |} s1)
    as [r2 s2] eqn:P2.
  destruct r2 as [ev2|e].
  2:{ vm_compute in P1. inversion P1. subst. vm_compute in P2. discriminate. }
  exists ev1, s1, ev2, s2. split; [reflexivity|]. split; [exact P2|].
  split.
  - apply (timestamps_follow_wall_clock (H := collaborators)
             black dim tick
             {| elapsed := 1 # 20; wall := 1707840000200 # 1000 |}
             fresh s1 s1 s2 ev1 ev2 P1 P2).
    vm_compute. discriminate.
  - vm_compute in P1. inversion P1. reflexivity.
Defined.

(** X23.  Rounding keeps a confidence in range: when every box of the
    engine's result has a confidence between 0 and 1, so has every detection
    of the record. *)
Theorem confidence_stays_in_range `{External} (fr : Frame) (clk : Clock)
    (self self' : VisionDetector) (ev : FrameEvent) (results : Results) :
  process_frame fr clk self = (Ok ev, self') ->
  predict fr (conf self) (imgsz self) (target_classes self) = Ok results ->
  Forall (fun box => (0 <= b_conf box <= 1)%Q) (boxes results) ->
  Forall (fun det => (0 <= d_conf det <= 1)%Q) (detections ev).
Proof.
  intros E P In01. apply process_frame_inv in E.
  destruct E as (results' & mot & dets & inst & self1 & P' & _ & D & _ & A).
  rewrite P in P'. inversion P'. subst results'. inversion A. simpl.
  apply mapM_Forall2 in D. clear - D In01.
  induction D as [|box det bs ds Ok1 _ IH]; [constructor|].
  inversion In01 as [|b l [Lo Hi] Rest]; subst.
  constructor; [|now apply IH].
  apply detection_of_inv in Ok1. destruct Ok1 as (_ & -> & _).
  split; [now apply round_nonneg|now apply round_at_most_one].
Qed.

Lemma confidence_stays_in_range_witness :
  exists ev s',
    process_frame black tick fresh = (Ok ev, s') /\
    Forall (fun det => (0 <= d_conf det <= 1)%Q) (detections ev).
Proof.
  destruct (process_frame (H := collaborators) black tick fresh)
    as [r s'] eqn:P.
  destruct r as [ev|e]; [|vm_compute in P; discriminate].
  exists ev, s'. split; [reflexivity|].
  apply (confidence_stays_in_range (H := collaborators) black tick fresh s' ev
           {| boxes := [person]; names := [(0, "person"%string)] |} P eq_refl).
  constructor; [|constructor]. split; vm_compute; discriminate.
Defined.
